(** * Geometric efficiency by Monte Carlo: a shallow embedding of
      [Isotropic_emission.cpp]

    The program is one C++ file: a [position] class (two vectors of doubles
    with in-place generators), [linspace], [point_source], the estimator
    [geom_eff_point] and the driver [main].

    Modelling choices.
    - [double] is an abstract type [D] with the operations the program uses
      ([DoubleOps]).  The code is written once over this interface and read at
      two instances: IEEE binary64 ([float_ops], Rocq's primitive floats, with
      the libm functions as parameters) and the idealised real numbers
      ([R_ops]).  Facts about NaN, infinity and rounding are proved in the
      first, algebraic facts (monotonicity, the disc, the end points of
      [linspace]) in the second.
    - [int] is [Z]; signed overflow is undefined behaviour ([int_arith]), a
      [size_t] to [int] conversion wraps ([to_int]).
    - [std::vector<double>] is [list D]; [operator[]] out of range is
      undefined behaviour ([vget], [vset]).
    - The <random> library is a parameter ([RandomLib]): an engine built from
      a seed, and distributions that draw from it by explicit state passing.
    - Standard input and [argv] are arguments of [main]; the console table
      and the output file are part of its result ([run]), with a log of the
      estimator calls made.
    - A run ends in an [outcome]: a value, [exit(0)] after a message on
      [std::cerr], an uncaught exception, or undefined behaviour. *)

From Stdlib Require Import String ZArith List Bool Lia.
From Stdlib Require Import Reals Lra.
From Stdlib Require Import Floats.
Import ListNotations.

Set Implicit Arguments.

(** ** Outcomes *)

Inductive outcome (A : Type) : Type :=
| Ret (a : A)              (* normal completion *)
| Exit (msg : string)      (* [std::cerr << msg; exit(0)] *)
| Throw (what : string)    (* uncaught C++ exception *)
| Undefined.               (* undefined behaviour *)

Arguments Ret {A} a.
Arguments Exit {A} msg.
Arguments Throw {A} what.
Arguments Undefined {A}.

Definition bind {A B : Type} (c : outcome A) (k : A -> outcome B) : outcome B :=
  match c with
  | Ret a => k a
  | Exit m => Exit m
  | Throw w => Throw w
  | Undefined => Undefined
  end.

Notation "x <- c ;; k" := (bind c (fun x => k))
  (at level 61, c at next level, right associativity).

(** [for (int i = start; i < start + count; i++) body] over a state. *)
Fixpoint for_loop {S : Type} (count : nat) (i : nat)
    (body : nat -> S -> outcome S) (s : S) : outcome S :=
  match count with
  | O => Ret s
  | Datatypes.S c => s' <- body i s ;; for_loop c (Datatypes.S i) body s'
  end.

(** ** The [int] type *)

Definition INT_MIN : Z := - 2 ^ 31.
Definition INT_MAX : Z := 2 ^ 31 - 1.

Definition in_int (z : Z) : bool := ((INT_MIN <=? z) && (z <=? INT_MAX))%Z.

(** An arithmetic result on [int]: overflow is undefined behaviour. *)
Definition int_arith (z : Z) : outcome Z :=
  if in_int z then Ret z else Undefined.

(** Conversion of a size to [int]. *)
Definition to_int (z : Z) : Z := ((z + 2 ^ 31) mod 2 ^ 32 - 2 ^ 31)%Z.

(** ** The [double] interface *)

Class DoubleOps (D : Type) : Type := {
  dadd : D -> D -> D;
  dsub : D -> D -> D;
  dmul : D -> D -> D;
  ddiv : D -> D -> D;
  dleb : D -> D -> bool;          (* [a <= b] *)
  of_int : Z -> D;                (* conversion of an [int] *)
  pi : D;                         (* the macro [pi] *)
  dsqrt : D -> D;
  dcos : D -> D;
  dsin : D -> D;
  dtan : D -> D;
  dacos : D -> D;
  dpow : D -> D -> D
}.

(** ** The <random> library *)

Class RandomLib (D : Type) : Type := {
  engine : Type;
  (* [std::default_random_engine generator{seed}] *)
  default_random_engine : Z -> engine;
  (* [std::uniform_real_distribution<double> d(a, b); d(generator)] *)
  uniform_real_distribution : D -> D -> engine -> D * engine;
  (* [std::normal_distribution<double> d(mean, stddev)] keeps a state of its
     own between draws *)
  normal_state : Type;
  normal_distribution : D -> D -> normal_state;
  normal_draw : normal_state -> engine -> D * (normal_state * engine)
}.

Section Program.

Context {D : Type} {ops : DoubleOps D} {rnd : RandomLib D}.

(** ** Vectors *)

Definition vget (v : list D) (i : nat) : outcome D :=
  match nth_error v i with
  | Some a => Ret a
  | None => Undefined
  end.

Fixpoint upd (i : nat) (a : D) (v : list D) {struct v} : list D :=
  match v, i with
  | [], _ => []
  | _ :: t, O => a :: t
  | h :: t, Datatypes.S j => h :: upd j a t
  end.

Definition vset (v : list D) (i : nat) (a : D) : outcome (list D) :=
  if (i <? length v)%nat then Ret (upd i a v) else Undefined.

(** [std::vector<double> v(n)] with [n] an [int]: [n] zeros; a negative [n]
    converts to a size above [max_size()] and the constructor throws. *)
Definition new_vector (n : Z) : outcome (list D) :=
  if (n <? 0)%Z then Throw "std::length_error"
  else Ret (repeat (of_int 0) (Z.to_nat n)).

(** ** class [position] *)

(** The members [x] and [y]. *)
Record position : Type := Position { pos_x : list D; pos_y : list D }.

(** [int size = v.size()] *)
Definition size_int (v : list D) : Z := to_int (Z.of_nat (length v)).

Definition add_vec_body (x_diff y_diff : list D) (i : nat) (p : position)
    : outcome position :=
  xi <- vget (pos_x p) i ;;
  dx <- vget x_diff i ;;
  x' <- vset (pos_x p) i (dadd xi dx) ;;
  yi <- vget (pos_y p) i ;;
  dy <- vget y_diff i ;;
  y' <- vset (pos_y p) i (dadd yi dy) ;;
  Ret (Position x' y').

Definition add_vec (p : position) (x_diff y_diff : list D) : outcome position :=
  let size_1 := size_int (pos_x p) in
  let size_2 := size_int x_diff in
  if negb (size_1 =? size_2)%Z
  then Exit "ERROR: vector addtion with different size vectors"
  else for_loop (Z.to_nat size_1) 0 (add_vec_body x_diff y_diff) p.

Definition calculate_rsq_body (p : position) (i : nat) (r_sq : list D)
    : outcome (list D) :=
  xi <- vget (pos_x p) i ;;
  yi <- vget (pos_y p) i ;;
  vset r_sq i (dadd (dmul xi xi) (dmul yi yi)).

Definition calculate_rsq (p : position) : outcome (list D) :=
  let size := size_int (pos_x p) in
  r_sq <- new_vector size ;;
  for_loop (Z.to_nat size) 0 (calculate_rsq_body p) r_sq.

(** The three generators share one loop: draw a point, store it at index
    [i].  [G] is the state of the sampler: the engine, with the state of the
    normal distribution for the gaussian source. *)
Definition fill_body {G : Type} (draw : G -> (D * D) * G) (i : nat)
    (s : G * position) : outcome (G * position) :=
  let '(g, p) := s in
  let '((xv, yv), g') := draw g in
  x' <- vset (pos_x p) i xv ;;
  y' <- vset (pos_y p) i yv ;;
  Ret (g', Position x' y').

Definition fill {G : Type} (draw : G -> (D * D) * G) (g : G) (p : position)
    : outcome position :=
  s <- for_loop (length (pos_x p)) 0 (fill_body draw) (g, p) ;;
  Ret (snd s).

Definition isotropic_draw (z : D) (g : engine) : (D * D) * engine :=
  let '(phi, g1) := uniform_real_distribution (of_int 0) (dmul (of_int 2) pi) g in
  let '(u, g2) := uniform_real_distribution (of_int 0) (of_int 1) g1 in
  let theta := dacos (dsub (of_int 1) (dmul (of_int 2) u)) in
  ((dmul (dmul z (dtan theta)) (dcos phi),
    dmul (dmul z (dtan theta)) (dsin phi)), g2).

Definition generate_isotropic (p : position) (z : D) (seed : Z)
    : outcome position :=
  fill (isotropic_draw z) (default_random_engine seed) p.

Definition circular_draw (r_s : D) (g : engine) : (D * D) * engine :=
  let '(phi, g1) := uniform_real_distribution (of_int 0) (dmul (of_int 2) pi) g in
  let '(u, g2) := uniform_real_distribution (of_int 0) (of_int 1) g1 in
  let r := dmul r_s (dsqrt u) in
  ((dmul r (dcos phi), dmul r (dsin phi)), g2).

Definition generate_circular_distr (p : position) (r_s : D) (seed : Z)
    : outcome position :=
  fill (circular_draw r_s) (default_random_engine seed) p.

Definition gaussian_draw (s : normal_state * engine)
    : (D * D) * (normal_state * engine) :=
  let '(nd, g) := s in
  let '(phi, g1) := uniform_real_distribution (of_int 0) (dmul (of_int 2) pi) g in
  let '(r, s2) := normal_draw nd g1 in
  ((dmul r (dcos phi), dmul r (dsin phi)), s2).

Definition generate_gaussian_distr (p : position) (sigma : D) (seed : Z)
    : outcome position :=
  fill gaussian_draw
       (normal_distribution (of_int 0) sigma, default_random_engine seed) p.

(** ** [linspace] *)

Definition linspace_body (min delta : D) (i : nat) (out : list D)
    : outcome (list D) :=
  vset out i (dadd min (dmul delta (of_int (Z.of_nat i)))).

(** [nr_points - 1] cannot overflow: the vector constructor has thrown for a
    negative [nr_points]. *)
Definition linspace (min max : D) (nr_points : Z) : outcome (list D) :=
  out <- new_vector nr_points ;;
  let delta := ddiv (dsub max min) (dmul (of_int 1) (of_int (nr_points - 1))) in
  for_loop (Z.to_nat nr_points) 0 (linspace_body min delta) out.

(** ** [point_source] *)

Definition point_source_value (zi : D) : D :=
  dsub (of_int 50)
       (ddiv (dmul (of_int 50) zi)
             (dsqrt (dadd (of_int 1) (dpow zi (of_int 2))))).

Definition point_source_body (z : list D) (i : nat) (ps : list D)
    : outcome (list D) :=
  zi <- vget z i ;;
  let temp := point_source_value zi in
  vset ps i temp.

Definition point_source (z : list D) : outcome (list D) :=
  let size := size_int z in
  ps <- new_vector size ;;
  for_loop (Z.to_nat size) 0 (point_source_body z) ps.

(** ** [geom_eff_point] *)

Definition hit_body (r_final : list D) (i : nat) (N_hit : Z) : outcome Z :=
  r <- vget r_final i ;;
  Ret (if dleb r (of_int 1) then (N_hit + 1)%Z else N_hit).

(** The body of [geom_eff_point] up to the end of the counting loop: the
    value of [N_hit] there. *)
Definition count_hits (z source : D) (n seed : Z) (source_type : string)
    : outcome Z :=
  x1 <- new_vector n ;;
  x2 <- new_vector n ;;
  y1 <- new_vector n ;;
  y2 <- new_vector n ;;
  let generate_source := Position x1 y1 in
  let generate_emission := Position x2 y2 in
  generate_source <-
    (if (source_type =? "uniform")%string
     then generate_circular_distr generate_source source seed
     else if (source_type =? "gaussian")%string
     then generate_gaussian_distr generate_source source seed
     else Exit "ERROR: Not a valid source type. Choose 'circular' or 'gaussian'") ;;
  seed <- int_arith (seed + 1) ;;
  generate_emission <- generate_isotropic generate_emission z seed ;;
  generate_source <-
    add_vec generate_source (pos_x generate_emission) (pos_y generate_emission) ;;
  r_final <- calculate_rsq generate_source ;;
  for_loop (Z.to_nat n) 0 (hit_body r_final) 0%Z.

Definition geom_eff_point (z source : D) (n seed : Z) (source_type : string)
    : outcome D :=
  N_hit <- count_hits z source n seed source_type ;;
  Ret (ddiv (dmul (of_int 50) (of_int N_hit)) (of_int n)).

(** ** [write_geo_file] *)

(** One line of the output file: z, point source, model, uncertainty. *)
Definition file_row : Type := (D * D * D * D)%type.

Definition write_body (z e_ps efficiencies rel_ers : list D) (i : nat)
    (lines : list file_row) : outcome (list file_row) :=
  zi <- vget z i ;;
  pi_ <- vget e_ps i ;;
  ei <- vget efficiencies i ;;
  ri <- vget rel_ers i ;;
  Ret (lines ++ [(zi, pi_, ei, ri)]).

Definition write_geo_file (z efficiencies rel_ers : list D)
    : outcome (list file_row) :=
  e_ps <- point_source z ;;
  for_loop (length z) 0 (write_body z e_ps efficiencies rel_ers) [].

(** ** [main] *)

(** The values read from standard input. *)
Record inputs : Type := Inputs {
  z_min : D;
  z_max : D;
  n_points : Z;
  source : D;
  power : Z;
  det_fraction : D;    (* read only for an annular detector *)
  filename : string
}.

(** One invocation of the estimator, with the arguments as passed. *)
Record call : Type := Call {
  call_z : D;
  call_source : D;
  call_n : Z;
  call_seed : Z;
  call_type : string
}.

(** One line of the console table: z/z_last, efficiency, relative error. *)
Definition console_row : Type := (D * D * D)%type.

(** The variables of [main] that live across the sweep loop.  [calls] is a
    ghost log: every estimator invocation is appended to it. *)
Record sweep : Type := Sweep {
  seed : Z;
  efficiencies : list D;
  rel_ers : list D;
  efficiencies_outer : list D;
  efficiencies_inner : list D;
  rel_ers_outer : list D;
  rel_ers_inner : list D;
  console : list console_row;
  calls : list call
}.

(** A call of [geom_eff_point] from [main]: the result, and the log extended. *)
Definition evaluate (c : call) (log : list call) : outcome (D * list call) :=
  e <- geom_eff_point (call_z c) (call_source c) (call_n c) (call_seed c)
                      (call_type c) ;;
  Ret (e, log ++ [c]).

(** [100 / sqrt(2 * n_perpoint * eff / 100)] *)
Definition rel_er (n_perpoint : Z) (eff : D) : outcome D :=
  two_n <- int_arith (2 * n_perpoint) ;;
  Ret (ddiv (of_int 100)
            (dsqrt (ddiv (dmul (of_int two_n) eff) (of_int 100)))).

(** [int n_perpoint = pow(10, power)]: libm's [pow] is taken to be exact on
    the powers of ten that fit an [int]; a negative power gives a value in
    [0, 1), truncated to 0; from [power = 10] on the value does not fit [int]
    and the conversion is undefined. *)
Definition pow10_int (power : Z) : outcome Z :=
  if (power <? 0)%Z then Ret 0%Z
  else if (power <=? 9)%Z then Ret (10 ^ power)%Z
  else Undefined.

Definition main_body (source_type detector_type : string) (inp : inputs)
    (n_perpoint : Z) (z : list D) (i : nat) (st : sweep) : outcome sweep :=
  st <-
    (if (detector_type =? "circular")%string then
       zi <- vget z i ;;
       r <- evaluate (Call zi (source inp) n_perpoint (seed st) source_type)
                     (calls st) ;;
       let '(e, log) := r in
       effs <- vset (efficiencies st) i e ;;
       ei <- vget effs i ;;
       re <- rel_er n_perpoint ei ;;
       rels <- vset (rel_ers st) i re ;;
       Ret (Sweep (seed st) effs rels (efficiencies_outer st)
                  (efficiencies_inner st) (rel_ers_outer st)
                  (rel_ers_inner st) (console st) log)
     else if (detector_type =? "annular")%string then
       zi <- vget z i ;;
       r <- evaluate (Call zi (source inp) n_perpoint (seed st) source_type)
                     (calls st) ;;
       let '(eo, log) := r in
       outer <- vset (efficiencies_outer st) i eo ;;
       zi <- vget z i ;;
       r <- evaluate (Call (dmul zi (det_fraction inp))
                           (dmul (source inp) (det_fraction inp))
                           n_perpoint (seed st) source_type) log ;;
       let '(ei, log) := r in
       inner <- vset (efficiencies_inner st) i ei ;;
       oi <- vget outer i ;;
       ii <- vget inner i ;;
       effs <- vset (efficiencies st) i (dsub oi ii) ;;
       oi <- vget outer i ;;
       ro <- rel_er n_perpoint oi ;;
       relo <- vset (rel_ers_outer st) i ro ;;
       ii <- vget inner i ;;
       ri <- rel_er n_perpoint ii ;;
       reli <- vset (rel_ers_inner st) i ri ;;
       ro <- vget relo i ;;
       ri <- vget reli i ;;
       rels <- vset (rel_ers st) i
                    (dsqrt (dadd (dmul ro ro) (dmul ri ri))) ;;
       Ret (Sweep (seed st) effs rels outer inner relo reli (console st) log)
     else Exit "ERROR: Detector types can only be circular/annular") ;;
  zi <- vget z i ;;
  zlast <- vget z (Z.to_nat (n_points inp - 1)) ;;
  ei <- vget (efficiencies st) i ;;
  ri <- vget (rel_ers st) i ;;
  Ret (Sweep (seed st) (efficiencies st) (rel_ers st) (efficiencies_outer st)
             (efficiencies_inner st) (rel_ers_outer st) (rel_ers_inner st)
             (console st ++ [(ddiv zi zlast, ei, ri)]) (calls st)).

(** What a completed run leaves behind. *)
Record run : Type := Run {
  run_console : list console_row;
  run_file : string * list file_row;
  run_calls : list call;
  run_seed : Z;               (* the value of [seed] in [main] at the end *)
  run_status : Z
}.

(** The sweep of [main] from the allocation of the result vectors on, for a
    given initial value of [seed]. *)
Definition sweep_from (seed0 : Z) (source_type detector_type : string)
    (inp : inputs) : outcome run :=
  n_perpoint <- pow10_int (power inp) ;;
  z <- linspace (z_min inp) (z_max inp) (n_points inp) ;;
  v1 <- new_vector (n_points inp) ;;
  v2 <- new_vector (n_points inp) ;;
  v3 <- new_vector (n_points inp) ;;
  v4 <- new_vector (n_points inp) ;;
  v5 <- new_vector (n_points inp) ;;
  v6 <- new_vector (n_points inp) ;;
  st <- for_loop (Z.to_nat (n_points inp)) 0
          (main_body source_type detector_type inp n_perpoint z)
          (Sweep seed0 v1 v2 v3 v4 v5 v6 [] []) ;;
  lines <- write_geo_file z (efficiencies st) (rel_ers st) ;;
  Ret (Run (console st) (filename inp, lines) (calls st) (seed st) 1).

Definition main (argv : list string) (inp : inputs) : outcome run :=
  let seed := 15763027%Z in
  if negb (length argv =? 3)%nat then
    Exit "ERROR: input option 'uniform' or 'gaussian' for the source distribution and 'circular' or 'annular' for the detector"
  else
    let source_type := nth 1 argv EmptyString in
    let detector_type := nth 2 argv EmptyString in
    if negb (source_type =? "uniform")%string
       && negb (source_type =? "gaussian")%string
    then Exit "ERROR: input option 'uniform' or 'gaussian' for the source distribution"
    else if negb (detector_type =? "circular")%string
            && negb (detector_type =? "annular")%string
    then Exit "ERROR: input option 'circular' or 'annular' for the source distribution"
    else sweep_from seed source_type detector_type inp.

End Program.

(** ** What the loops compute, as list functions

    These are the reading of the program that the theorems below relate the
    loops to: the points a sampler draws in order, the elementwise sum of two
    batches, the hit test and the count of hits. *)

Section Readings.

Context {D : Type} {ops : DoubleOps D} {rnd : RandomLib D}.

(** The first [n] points drawn from the sampler state [g], in draw order. *)
Fixpoint draw_points {G : Type} (draw : G -> (D * D) * G) (g : G) (n : nat)
    : list (D * D) :=
  match n with
  | O => []
  | Datatypes.S k => let '(pt, g') := draw g in pt :: draw_points draw g' k
  end.

Definition source_points (source_type : string) (source : D) (seed : Z)
    (n : nat) : list (D * D) :=
  if (source_type =? "uniform")%string
  then draw_points (circular_draw source) (default_random_engine seed) n
  else draw_points gaussian_draw
         (normal_distribution (of_int 0) source, default_random_engine seed) n.

Definition emission_points (z : D) (seed : Z) (n : nat) : list (D * D) :=
  draw_points (isotropic_draw z) (default_random_engine seed) n.

(** Elementwise sum of two vectors, and of two batches of points. *)
Fixpoint vadd (a b : list D) : list D :=
  match a, b with
  | u :: a', v :: b' => dadd u v :: vadd a' b'
  | _, _ => []
  end.

Definition translate (a b : list (D * D)) : list (D * D) :=
  combine (vadd (map fst a) (map fst b)) (vadd (map snd a) (map snd b)).

Definition squared_radius (p : D * D) : D :=
  dadd (dmul (fst p) (fst p)) (dmul (snd p) (snd p)).

Definition is_hit (p : D * D) : bool := dleb (squared_radius p) (of_int 1).

Definition hit_count (l : list (D * D)) : Z :=
  Z.of_nat (length (filter is_hit l)).

(** The summed points of one estimator evaluation. *)
Definition landing_points (z source : D) (n seed : Z) (source_type : string)
    : list (D * D) :=
  translate (source_points source_type source seed (Z.to_nat n))
            (emission_points z (seed + 1) (Z.to_nat n)).

Definition efficiency_percent (z source : D) (n seed : Z)
    (source_type : string) : D :=
  ddiv (dmul (of_int 50)
             (of_int (hit_count (landing_points z source n seed source_type))))
       (of_int n).

Definition rel_er_value (n_perpoint : Z) (eff : D) : D :=
  ddiv (of_int 100)
       (dsqrt (ddiv (dmul (of_int (2 * n_perpoint)) eff) (of_int 100))).

(** The distances of a sweep. *)
Definition linspace_values (min max : D) (nr_points : Z) : list D :=
  let delta := ddiv (dsub max min) (dmul (of_int 1) (of_int (nr_points - 1))) in
  map (fun i => dadd min (dmul delta (of_int (Z.of_nat i))))
      (seq 0 (Z.to_nat nr_points)).

(** Efficiency and relative error reported at one distance. *)
Definition circular_result (source_type : string) (inp : inputs)
    (n_perpoint seed : Z) (zi : D) : D * D :=
  let e := efficiency_percent zi (source inp) n_perpoint seed source_type in
  (e, rel_er_value n_perpoint e).

Definition annular_result (source_type : string) (inp : inputs)
    (n_perpoint seed : Z) (zi : D) : D * D :=
  let eo := efficiency_percent zi (source inp) n_perpoint seed source_type in
  let ei := efficiency_percent (dmul zi (det_fraction inp))
              (dmul (source inp) (det_fraction inp)) n_perpoint seed
              source_type in
  let ro := rel_er_value n_perpoint eo in
  let ri := rel_er_value n_perpoint ei in
  (dsub eo ei, dsqrt (dadd (dmul ro ro) (dmul ri ri))).

Definition sweep_result (source_type detector_type : string) (inp : inputs)
    (n_perpoint seed : Z) (zi : D) : D * D :=
  if (detector_type =? "circular")%string
  then circular_result source_type inp n_perpoint seed zi
  else annular_result source_type inp n_perpoint seed zi.

(** The estimator invocations made at one distance. *)
Definition sweep_calls (source_type detector_type : string) (inp : inputs)
    (n_perpoint seed : Z) (zi : D) : list call :=
  if (detector_type =? "circular")%string
  then [Call zi (source inp) n_perpoint seed source_type]
  else [Call zi (source inp) n_perpoint seed source_type;
        Call (dmul zi (det_fraction inp))
             (dmul (source inp) (det_fraction inp)) n_perpoint seed
             source_type].

Definition sweep_console (source_type detector_type : string) (inp : inputs)
    (n_perpoint seed : Z) (zlast zi : D) : console_row :=
  let r := sweep_result source_type detector_type inp n_perpoint seed zi in
  (ddiv zi zlast, fst r, snd r).

Definition sweep_file (source_type detector_type : string) (inp : inputs)
    (n_perpoint seed : Z) (zi : D) : file_row :=
  let r := sweep_result source_type detector_type inp n_perpoint seed zi in
  (zi, point_source_value zi, fst r, snd r).

Definition valid_source (s : string) : bool :=
  ((s =? "uniform") || (s =? "gaussian"))%string.

Definition valid_detector (s : string) : bool :=
  ((s =? "circular") || (s =? "annular"))%string.

End Readings.

(** ** The two readings of [double] *)

(** *** Idealised: real numbers *)

Definition Rleb (a b : R) : bool := if Rle_dec a b then true else false.

(** [pow(x, y)] on the reals: the integer power for an integral [y], the
    exponential of [y * ln x] otherwise. *)
Definition Rpow (a b : R) : R :=
  if Req_dec_T b (IZR (Int_part b)) then powerRZ a (Int_part b)
  else Rpower a b.

#[export] Instance R_ops : DoubleOps R := {|
  dadd := Rplus;
  dsub := Rminus;
  dmul := Rmult;
  ddiv := Rdiv;
  dleb := Rleb;
  of_int := IZR;
  pi := 3.14159265358979323846%R;
  dsqrt := R_sqrt.sqrt;
  dcos := cos;
  dsin := sin;
  dtan := tan;
  dacos := acos;
  dpow := Rpow
|}.

(** *** IEEE binary64 *)

(** The libm functions the program calls; [sqrt] is the IEEE operation. *)
Record libm : Type := Libm {
  m_cos : float -> float;
  m_sin : float -> float;
  m_tan : float -> float;
  m_acos : float -> float;
  m_pow : float -> float -> float
}.

(** [int] to [double]: exact, an [int] has at most 31 significant bits. *)
Definition float_of_int (z : Z) : float :=
  match z with
  | Z0 => 0%float
  | Zpos _ => PrimFloat.of_uint63 (Uint63.of_Z z)
  | Zneg p => PrimFloat.opp (PrimFloat.of_uint63 (Uint63.of_Z (Zpos p)))
  end.

Definition float_ops (m : libm) : DoubleOps float := {|
  dadd := PrimFloat.add;
  dsub := PrimFloat.sub;
  dmul := PrimFloat.mul;
  ddiv := PrimFloat.div;
  dleb := PrimFloat.leb;
  of_int := float_of_int;
  pi := 0x1.921fb54442d18p+1%float;   (* the double nearest to the macro *)
  dsqrt := PrimFloat.sqrt;
  dcos := m_cos m;
  dsin := m_sin m;
  dtan := m_tan m;
  dacos := m_acos m;
  dpow := m_pow m
|}.

(** The number of bits of a mantissa. *)
Definition dig (p : positive) : Z := Zpos (digits2_pos p).

(** ** A sample <random> library

    The C++ standard leaves [std::default_random_engine] and the algorithms of
    the distributions to the implementation.  This instance is one possible
    choice, used to run the program on concrete inputs: the minimal standard
    linear congruential engine, a uniform distribution that scales one engine
    output, and a crude bell-shaped distribution (the sum of two uniform
    draws). *)

Definition minstd_modulus : Z := 2147483647.

Definition minstd_seed (seed : Z) : Z :=
  let s := (seed mod minstd_modulus)%Z in
  if (s =? 0)%Z then 1%Z else s.

Definition minstd_next (g : Z) : Z := ((16807 * g) mod minstd_modulus)%Z.

Definition sample_uniform {D : Type} {ops : DoubleOps D} (a b : D) (g : Z)
    : D * Z :=
  let g' := minstd_next g in
  (dadd a (dmul (dsub b a) (ddiv (of_int g') (of_int minstd_modulus))), g').

Definition sample_normal {D : Type} {ops : DoubleOps D} (nd : D * D) (g : Z)
    : D * ((D * D) * Z) :=
  let '(u1, g1) := sample_uniform (of_int 0) (of_int 1) g in
  let '(u2, g2) := sample_uniform (of_int 0) (of_int 1) g1 in
  (dadd (fst nd) (dmul (snd nd) (dsub (dadd u1 u2) (of_int 1))), (nd, g2)).

Definition sample_random (D : Type) {ops : DoubleOps D} : RandomLib D := {|
  engine := Z;
  default_random_engine := minstd_seed;
  uniform_real_distribution := sample_uniform;
  normal_state := (D * D)%type;
  normal_distribution := fun mean stddev => (mean, stddev);
  normal_draw := sample_normal
|}.

(** ** A sample libm

    Coarse stand-ins for the libm functions, built from the IEEE operations
    (truncated power series, accurate only near zero; [pow] only for the
    exponents 0 to 3).  They serve to run the binary64 reading of the program
    on concrete inputs; no theorem depends on their accuracy. *)

Definition sample_cos (a : float) : float :=
  (1 - a * a / 2 + a * a * a * a / 24)%float.

Definition sample_sin (a : float) : float :=
  (a - a * a * a / 6 + a * a * a * a * a / 120)%float.

Definition sample_tan (a : float) : float :=
  (sample_sin a / sample_cos a)%float.

Definition sample_acos (a : float) : float :=
  (0x1.921fb54442d18p+0 - (a + a * a * a / 6))%float.

Definition sample_pow (a b : float) : float :=
  if PrimFloat.eqb b 0 then 1%float
  else if PrimFloat.eqb b 1 then a
  else if PrimFloat.eqb b 2 then (a * a)%float
  else if PrimFloat.eqb b 3 then (a * a * a)%float
  else nan.

Definition sample_libm : libm :=
  Libm sample_cos sample_sin sample_tan sample_acos sample_pow.

(** The binary64 reading with the sample libraries. *)
Definition sample_float_ops : DoubleOps float := float_ops sample_libm.
Definition sample_float_random : RandomLib float :=
  @sample_random float sample_float_ops.
Definition sample_real_random : RandomLib R := @sample_random R R_ops.

(** The result of a completed run, mapped. *)
Definition outcome_map {A B : Type} (f : A -> B) (c : outcome A) : outcome B :=
  match c with
  | Ret a => Ret (f a)
  | Exit m => Exit m
  | Throw w => Throw w
  | Undefined => Undefined
  end.

(** * Proofs *)

Unset Implicit Arguments.

(** ** Loops and vectors *)

(** The invariant rule of [for_loop]: a body that returns and re-establishes
    the invariant makes the loop return in a state satisfying it. *)
Lemma for_loop_inv {S : Type} (P : nat -> S -> Prop)
    (body : nat -> S -> outcome S) :
  forall count i s,
    P i s ->
    (forall j t, (i <= j < i + count)%nat -> P j t ->
       exists t', body j t = Ret t' /\ P (Datatypes.S j) t') ->
    exists s', for_loop count i body s = Ret s' /\ P (i + count)%nat s'.
Proof.
  induction count as [|c IH]; intros i s Hs Hstep; simpl.
  - exists s. rewrite Nat.add_0_r. auto.
  - destruct (Hstep i s ltac:(lia) Hs) as (t' & Hb & Ht').
    rewrite Hb. simpl.
    destruct (IH (Datatypes.S i) t' Ht') as (s' & Hl & Hs').
    + intros j t Hj Pt. apply Hstep; [lia | exact Pt].
    + exists s'. split; [exact Hl|].
      replace (i + Datatypes.S c)%nat with (Datatypes.S i + c)%nat by lia.
      exact Hs'.
Qed.

Lemma to_int_small (z : Z) :
  (0 <= z <= INT_MAX)%Z -> to_int z = z.
Proof.
  unfold to_int, INT_MAX. intros H.
  rewrite Z.mod_small; lia.
Qed.

Lemma in_int_true (z : Z) :
  (INT_MIN <= z <= INT_MAX)%Z -> in_int z = true.
Proof.
  unfold in_int. intros H.
  apply andb_true_intro. split; apply Z.leb_le; lia.
Qed.

Section VectorFacts.

Context {D : Type} {ops : DoubleOps D}.

Lemma nth_error_upd (v : list D) :
  forall i a k,
    nth_error (upd i a v) k =
    if (k =? i)%nat then (if (i <? length v)%nat then Some a else None)
    else nth_error v k.
Proof.
  induction v as [|h t IH]; intros i a k; simpl.
  - destruct (k =? i)%nat; destruct k; reflexivity.
  - destruct i as [|i]; destruct k as [|k]; simpl; try reflexivity.
    rewrite IH. destruct (k =? i)%nat; [|reflexivity].
    change (Datatypes.S i <? Datatypes.S (length t))%nat
      with (i <? length t)%nat. reflexivity.
Qed.

Lemma upd_length (v : list D) :
  forall i a, length (upd i a v) = length v.
Proof.
  induction v as [|h t IH]; intros i a; [reflexivity|].
  destruct i; simpl; [reflexivity|]. f_equal. apply IH.
Qed.

Lemma vset_ok (v : list D) (i : nat) (a : D) :
  (i < length v)%nat -> vset v i a = Ret (upd i a v).
Proof.
  intros H. unfold vset.
  destruct (Nat.ltb_spec i (length v)); [reflexivity | lia].
Qed.

Lemma vget_ok (v : list D) (i : nat) (a : D) :
  nth_error v i = Some a -> vget v i = Ret a.
Proof. intros H. unfold vget. rewrite H. reflexivity. Qed.

Lemma nth_error_lt (v : list D) (i : nat) (a : D) :
  nth_error v i = Some a -> (i < length v)%nat.
Proof. intros H. apply nth_error_Some. congruence. Qed.

Lemma new_vector_ok (n : Z) :
  (0 <= n)%Z -> new_vector n = Ret (repeat (of_int 0) (Z.to_nat n)).
Proof.
  intros H. unfold new_vector.
  destruct (Z.ltb_spec n 0); [lia | reflexivity].
Qed.

Lemma size_int_ok (v : list D) :
  (Z.of_nat (length v) <= INT_MAX)%Z -> size_int v = Z.of_nat (length v).
Proof. intros H. unfold size_int. apply to_int_small. lia. Qed.

(** A list is determined by what [nth_error] returns below a bound it does
    not exceed. *)
Lemma list_eq_nth (v w : list D) (n : nat) :
  length w = n ->
  (forall k, (k < n)%nat -> nth_error v k = nth_error w k) ->
  (forall k, (n <= k)%nat -> nth_error v k = None) ->
  v = w.
Proof.
  intros Hw Hlt Hge. apply nth_error_ext. intros k.
  destruct (Nat.lt_ge_cases k n) as [H|H].
  - apply Hlt, H.
  - rewrite Hge by exact H. symmetry. apply nth_error_None. lia.
Qed.

Lemma nth_error_map_seq (f : nat -> D) (n k : nat) :
  (k < n)%nat -> nth_error (map f (seq 0 n)) k = Some (f k).
Proof.
  intros H. rewrite nth_error_map, nth_error_seq.
  destruct (Nat.ltb_spec k n); [reflexivity | lia].
Qed.

End VectorFacts.

Lemma firstn_succ_nth {A : Type} (l : list A) :
  forall j a, nth_error l j = Some a ->
    firstn (Datatypes.S j) l = firstn j l ++ [a].
Proof.
  induction l as [|h t IH]; intros j a H.
  - destruct j; discriminate.
  - destruct j as [|j]; simpl in *.
    + congruence.
    + f_equal. apply IH, H.
Qed.

Section LoopFacts.

Context {D : Type} {ops : DoubleOps D} {rnd : RandomLib D}.

(** A loop that stores [f j] at index [j] of a vector of size [n] leaves
    [f 0, ..., f (n-1)]. *)
Lemma store_loop (f : nat -> D) (body : nat -> list D -> outcome (list D))
    (n : nat) (v0 : list D) :
  length v0 = n ->
  (forall j v, (j < n)%nat -> length v = n -> body j v = vset v j (f j)) ->
  for_loop n 0 body v0 = Ret (map f (seq 0 n)).
Proof.
  intros Hlen Hbody.
  destruct (for_loop_inv
              (fun j v => length v = n /\
                 forall k, nth_error v k =
                   if (k <? j)%nat then Some (f k) else nth_error v0 k)
              body n 0 v0) as (v & Hv & Hn & Hk).
  - split; [exact Hlen | intros k; reflexivity].
  - intros j v Hj (Hl & Hk). exists (upd j (f j) v). split.
    + rewrite Hbody by (lia || assumption). apply vset_ok. lia.
    + split.
      * rewrite upd_length. exact Hl.
      * intros k. rewrite nth_error_upd.
        destruct (Nat.eqb_spec k j) as [->|Hne].
        -- destruct (Nat.ltb_spec j (length v)); [|lia].
           destruct (Nat.ltb_spec j (Datatypes.S j)); [reflexivity|lia].
        -- rewrite Hk.
           destruct (Nat.ltb_spec k j); destruct (Nat.ltb_spec k (Datatypes.S j));
             try reflexivity; lia.
  - rewrite Hv. f_equal. apply list_eq_nth with (n := n).
    + rewrite length_map, length_seq. reflexivity.
    + intros k Hkn. rewrite Hk, nth_error_map_seq by exact Hkn.
      simpl. destruct (Nat.ltb_spec k n); [reflexivity | lia].
    + intros k Hkn. apply nth_error_None. lia.
Qed.

End LoopFacts.

Section ProgramFacts.

Context {D : Type} {ops : DoubleOps D} {rnd : RandomLib D}.

Lemma map_nth_seq (g : D -> D) (l : list D) (d : D) :
  map (fun i => g (nth i l d)) (seq 0 (length l)) = map g l.
Proof.
  apply nth_error_ext. intros k.
  rewrite !nth_error_map, nth_error_seq.
  destruct (Nat.ltb_spec k (length l)) as [H|H]; simpl.
  - rewrite (nth_error_nth' l d H). reflexivity.
  - apply nth_error_None in H. rewrite H. reflexivity.
Qed.

Lemma linspace_spec (min max : D) (n : Z) :
  (0 <= n)%Z -> linspace min max n = Ret (linspace_values min max n).
Proof.
  intros Hn. unfold linspace, linspace_values.
  rewrite new_vector_ok by exact Hn. simpl.
  apply store_loop.
  - apply repeat_length.
  - intros j v _ _. reflexivity.
Qed.

Lemma linspace_negative (min max : D) (n : Z) :
  (n < 0)%Z -> linspace min max n = Throw "std::length_error".
Proof.
  intros Hn. unfold linspace, new_vector.
  destruct (Z.ltb_spec n 0); [reflexivity | lia].
Qed.

Lemma point_source_spec (z : list D) :
  (Z.of_nat (length z) <= INT_MAX)%Z ->
  point_source z = Ret (map point_source_value z).
Proof.
  intros Hz. unfold point_source.
  rewrite size_int_ok by exact Hz.
  rewrite new_vector_ok by lia. simpl. rewrite Nat2Z.id.
  rewrite <- (map_nth_seq point_source_value z (of_int 0)).
  apply store_loop.
  - apply repeat_length.
  - intros j v Hj _. unfold point_source_body.
    rewrite (vget_ok z j (nth j z (of_int 0))); [reflexivity|].
    apply nth_error_nth'. exact Hj.
Qed.

Lemma combine_nth_seq (x y : list D) (d : D) :
  length x = length y ->
  map (fun i => squared_radius (nth i x d, nth i y d)) (seq 0 (length x))
  = map squared_radius (combine x y).
Proof.
  intros Hxy. apply nth_error_ext. intros k.
  rewrite !nth_error_map, nth_error_seq.
  destruct (Nat.ltb_spec k (length x)) as [H|H]; simpl.
  - assert (Hc : nth_error (combine x y) k = Some (nth k x d, nth k y d)).
    { rewrite <- (combine_nth x y k d d Hxy).
      apply nth_error_nth'. rewrite length_combine. lia. }
    rewrite Hc. reflexivity.
  - assert (Hc : nth_error (combine x y) k = None).
    { apply nth_error_None. rewrite length_combine. lia. }
    rewrite Hc. reflexivity.
Qed.

Lemma calculate_rsq_spec (x y : list D) :
  length x = length y ->
  (Z.of_nat (length x) <= INT_MAX)%Z ->
  calculate_rsq (Position x y) = Ret (map squared_radius (combine x y)).
Proof.
  intros Hxy Hx. unfold calculate_rsq. simpl pos_x.
  rewrite size_int_ok by exact Hx.
  rewrite new_vector_ok by lia. simpl. rewrite Nat2Z.id.
  rewrite <- (combine_nth_seq x y (of_int 0) Hxy).
  apply store_loop.
  - apply repeat_length.
  - intros j v Hj _. unfold calculate_rsq_body. simpl.
    rewrite (vget_ok x j (nth j x (of_int 0))) by (apply nth_error_nth'; lia).
    rewrite (vget_ok y j (nth j y (of_int 0))) by (apply nth_error_nth'; lia).
    reflexivity.
Qed.

Lemma vadd_length (a : list D) :
  forall b, length a = length b -> length (vadd a b) = length a.
Proof.
  induction a as [|u a IH]; intros [|v b] H; simpl in *; try congruence.
  f_equal. apply IH. congruence.
Qed.

Lemma nth_error_vadd (a : list D) :
  forall b k u v,
    nth_error a k = Some u -> nth_error b k = Some v ->
    nth_error (vadd a b) k = Some (dadd u v).
Proof.
  induction a as [|h a IH]; intros [|h' b] k u v Ha Hb;
    destruct k as [|k]; simpl in *; try discriminate.
  - congruence.
  - eapply IH; eassumption.
Qed.

(** The invariant of the in-place loops: below [j] the vector holds the new
    values [w], from [j] on the old ones [v0]. *)
Lemma inplace_final (v v0 w : list D) (n : nat) :
  length v0 = n -> length w = n ->
  (forall k, nth_error v k =
             if (k <? n)%nat then nth_error w k else nth_error v0 k) ->
  v = w.
Proof.
  intros H0 Hw Hk. apply nth_error_ext. intros k. rewrite Hk.
  destruct (Nat.ltb_spec k n); [reflexivity|].
  transitivity (@None D); [|symmetry]; apply nth_error_None; lia.
Qed.

Lemma inplace_step (v v0 w : list D) (j : nat) (a : D) :
  (j < length v)%nat ->
  nth_error w j = Some a ->
  (forall k, nth_error v k =
             if (k <? j)%nat then nth_error w k else nth_error v0 k) ->
  forall k, nth_error (upd j a v) k =
            if (k <? Datatypes.S j)%nat then nth_error w k else nth_error v0 k.
Proof.
  intros Hj Hw Hk k. rewrite nth_error_upd.
  destruct (Nat.eqb_spec k j) as [->|Hne].
  - destruct (Nat.ltb_spec j (length v)); [|lia].
    destruct (Nat.ltb_spec j (Datatypes.S j)); [|lia].
    symmetry. exact Hw.
  - rewrite Hk.
    destruct (Nat.ltb_spec k j); destruct (Nat.ltb_spec k (Datatypes.S j));
      try reflexivity; lia.
Qed.

Lemma add_vec_spec (x y dx dy : list D) :
  length x = length y -> length dx = length x -> length dy = length x ->
  (Z.of_nat (length x) <= INT_MAX)%Z ->
  add_vec (Position x y) dx dy = Ret (Position (vadd x dx) (vadd y dy)).
Proof.
  intros Hy Hdx Hdy Hmax. unfold add_vec. simpl pos_x.
  rewrite !size_int_ok by lia. rewrite Hdx, Z.eqb_refl. simpl negb. cbv iota.
  rewrite Nat2Z.id.
  set (n := length x) in *.
  destruct (for_loop_inv
              (fun j p =>
                 length (pos_x p) = n /\ length (pos_y p) = n /\
                 (forall k, nth_error (pos_x p) k =
                    if (k <? j)%nat then nth_error (vadd x dx) k
                    else nth_error x k) /\
                 (forall k, nth_error (pos_y p) k =
                    if (k <? j)%nat then nth_error (vadd y dy) k
                    else nth_error y k))
              (add_vec_body dx dy) n 0 (Position x y))
    as (p & Hp & Hlx & Hly & Hkx & Hky).
  - simpl. repeat split; auto.
  - intros j [px py] Hj (Hlx & Hly & Hkx & Hky). simpl in *.
    destruct (nth_error x j) as [xj|] eqn:Exj;
      [|apply nth_error_None in Exj; lia].
    destruct (nth_error y j) as [yj|] eqn:Eyj;
      [|apply nth_error_None in Eyj; lia].
    destruct (nth_error dx j) as [dxj|] eqn:Edxj;
      [|apply nth_error_None in Edxj; lia].
    destruct (nth_error dy j) as [dyj|] eqn:Edyj;
      [|apply nth_error_None in Edyj; lia].
    assert (Hpx : nth_error px j = Some xj).
    { rewrite Hkx. rewrite Nat.ltb_irrefl. exact Exj. }
    assert (Hpy : nth_error py j = Some yj).
    { rewrite Hky. rewrite Nat.ltb_irrefl. exact Eyj. }
    exists (Position (upd j (dadd xj dxj) px) (upd j (dadd yj dyj) py)).
    split.
    + unfold add_vec_body. simpl.
      rewrite (vget_ok px j xj Hpx), (vget_ok dx j dxj Edxj). simpl.
      rewrite vset_ok by lia. simpl.
      rewrite (vget_ok py j yj Hpy), (vget_ok dy j dyj Edyj). simpl.
      rewrite vset_ok by lia. reflexivity.
    + simpl. rewrite !upd_length. repeat split; try assumption.
      * apply inplace_step; [lia | | exact Hkx].
        apply nth_error_vadd; assumption.
      * apply inplace_step; [lia | | exact Hky].
        apply nth_error_vadd; assumption.
  - rewrite Hp. destruct p as [px py]. simpl in *. f_equal. f_equal.
    + apply inplace_final with (v0 := x) (n := n); auto.
      rewrite vadd_length; [reflexivity | lia].
    + apply inplace_final with (v0 := y) (n := n); auto.
      rewrite vadd_length; lia.
Qed.

Lemma add_vec_mismatch (p : position) (dx dy : list D) :
  (Z.of_nat (length (pos_x p)) <= INT_MAX)%Z ->
  (Z.of_nat (length dx) <= INT_MAX)%Z ->
  length (pos_x p) <> length dx ->
  add_vec p dx dy = Exit "ERROR: vector addtion with different size vectors".
Proof.
  intros Hx Hdx Hne. unfold add_vec.
  rewrite !size_int_ok by assumption.
  destruct (Z.eqb_spec (Z.of_nat (length (pos_x p))) (Z.of_nat (length dx)));
    [lia | reflexivity].
Qed.

(** The size test of [add_vec] looks at the x vectors only: a y offset
    vector shorter than the batch is read out of range. *)
Lemma add_vec_short_y_offsets (a b c : D) :
  add_vec (Position [a] [b]) [c] [] = Undefined.
Proof. reflexivity. Qed.

End ProgramFacts.

Section EstimatorFacts.

Context {D : Type} {ops : DoubleOps D} {rnd : RandomLib D}.

Lemma draw_points_length {G : Type} (draw : G -> (D * D) * G) (n : nat) :
  forall g, length (draw_points draw g n) = n.
Proof.
  induction n as [|n IH]; intros g; simpl; [reflexivity|].
  destruct (draw g) as [pt g']. simpl. f_equal. apply IH.
Qed.

Lemma skipn_cons_nth {A : Type} (l : list A) :
  forall j a r, skipn j l = a :: r ->
    nth_error l j = Some a /\ skipn (Datatypes.S j) l = r.
Proof.
  induction l as [|h t IH]; intros j a r H.
  - destruct j; discriminate.
  - destruct j as [|j]; simpl in *.
    + inversion H. auto.
    + apply IH, H.
Qed.

(** A generator fills the batch with the points its sampler draws, in draw
    order, whatever the batch held before. *)
Lemma fill_spec {G : Type} (draw : G -> (D * D) * G) (g0 : G) (x y : list D) :
  length x = length y ->
  fill draw g0 (Position x y) =
  Ret (Position (map fst (draw_points draw g0 (length x)))
                (map snd (draw_points draw g0 (length x)))).
Proof.
  intros Hy. unfold fill. simpl pos_x.
  set (n := length x) in *.
  set (pts := draw_points draw g0 n).
  assert (Hpts : length pts = n) by apply draw_points_length.
  destruct (for_loop_inv
              (fun j (s : G * position) =>
                 length (pos_x (snd s)) = n /\ length (pos_y (snd s)) = n /\
                 (forall k, nth_error (pos_x (snd s)) k =
                    if (k <? j)%nat then nth_error (map fst pts) k
                    else nth_error x k) /\
                 (forall k, nth_error (pos_y (snd s)) k =
                    if (k <? j)%nat then nth_error (map snd pts) k
                    else nth_error y k) /\
                 skipn j pts = draw_points draw (fst s) (n - j))
              (fill_body draw) n 0 (g0, Position x y))
    as (s & Hs & Hlx & Hly & Hkx & Hky & _).
  - simpl. rewrite Nat.sub_0_r. repeat split; auto.
  - intros j [g [px py]] Hj (Hlx & Hly & Hkx & Hky & Hg). simpl in *.
    destruct (n - j)%nat as [|m] eqn:Em; [lia|]. simpl in Hg.
    unfold fill_body.
    destruct (draw g) as [[xv yv] g'] eqn:Ed.
    apply skipn_cons_nth in Hg. destruct Hg as [Hnth Hskip].
    exists (g', Position (upd j xv px) (upd j yv py)). split.
    + rewrite !vset_ok by lia. reflexivity.
    + simpl. rewrite !upd_length. repeat split; try assumption.
      * apply inplace_step; [lia | | exact Hkx].
        rewrite nth_error_map, Hnth. reflexivity.
      * apply inplace_step; [lia | | exact Hky].
        rewrite nth_error_map, Hnth. reflexivity.
      * change (skipn (Datatypes.S j) pts = draw_points draw g' (n - Datatypes.S j)).
        rewrite Hskip. f_equal. lia.
  - rewrite Hs. simpl. destruct s as [g [px py]]. simpl in *. f_equal. f_equal.
    + apply inplace_final with (v0 := x) (n := n); auto.
      rewrite length_map. exact Hpts.
    + apply inplace_final with (v0 := y) (n := n); auto.
      rewrite length_map. exact Hpts.
Qed.

Lemma filter_map_length {A B : Type} (f : A -> B) (t : B -> bool) (l : list A) :
  length (filter t (map f l)) = length (filter (fun a => t (f a)) l).
Proof.
  induction l as [|a l IH]; simpl; [reflexivity|].
  destruct (t (f a)); simpl; congruence.
Qed.

Lemma hit_loop_spec (r_final : list D) :
  for_loop (length r_final) 0 (hit_body r_final) 0%Z =
  Ret (Z.of_nat (length (filter (fun r => dleb r (of_int 1)) r_final))).
Proof.
  destruct (for_loop_inv
              (fun j h => h = Z.of_nat (length
                 (filter (fun r => dleb r (of_int 1)) (firstn j r_final))))
              (hit_body r_final) (length r_final) 0 0%Z) as (h & Hh & Hv).
  - reflexivity.
  - intros j t Hj Ht.
    destruct (nth_error r_final j) as [r|] eqn:Er;
      [|apply nth_error_None in Er; lia].
    unfold hit_body. rewrite (vget_ok r_final j r Er). cbn [bind].
    eexists. split; [reflexivity|]. cbv beta in *.
    rewrite (firstn_succ_nth r_final j r Er), filter_app, length_app. simpl.
    destruct (dleb r (of_int 1)); simpl; lia.
  - rewrite Hh, Hv. simpl. rewrite firstn_all. reflexivity.
Qed.

Lemma source_generator_spec (source_type : string) (source : D) (seed : Z)
    (x y : list D) :
  valid_source source_type = true ->
  length x = length y ->
  (if (source_type =? "uniform")%string
   then generate_circular_distr (Position x y) source seed
   else if (source_type =? "gaussian")%string
   then generate_gaussian_distr (Position x y) source seed
   else Exit "ERROR: Not a valid source type. Choose 'circular' or 'gaussian'")
  = Ret (Position
           (map fst (source_points source_type source seed (length x)))
           (map snd (source_points source_type source seed (length x)))).
Proof.
  intros Hv Hxy. unfold valid_source in Hv. unfold source_points.
  destruct (source_type =? "uniform")%string.
  - apply fill_spec. exact Hxy.
  - simpl in Hv. rewrite Hv. apply fill_spec. exact Hxy.
Qed.

Lemma source_points_length (source_type : string) (source : D) (seed : Z)
    (n : nat) :
  length (source_points source_type source seed n) = n.
Proof.
  unfold source_points.
  destruct (source_type =? "uniform")%string; apply draw_points_length.
Qed.

Lemma count_hits_spec (z source : D) (n seed : Z) (source_type : string) :
  (0 <= n <= INT_MAX)%Z ->
  (INT_MIN <= seed < INT_MAX)%Z ->
  valid_source source_type = true ->
  count_hits z source n seed source_type =
  Ret (hit_count (landing_points z source n seed source_type)).
Proof.
  intros Hn Hseed Hty. unfold count_hits.
  rewrite new_vector_ok by lia. simpl.
  set (zeros := repeat (of_int 0) (Z.to_nat n)).
  assert (Hz : length zeros = Z.to_nat n) by apply repeat_length.
  rewrite (source_generator_spec source_type source seed zeros zeros Hty eq_refl).
  simpl. unfold int_arith. rewrite in_int_true by lia. simpl.
  unfold generate_isotropic. rewrite fill_spec by reflexivity. simpl.
  rewrite Hz.
  fold (emission_points z (seed + 1) (Z.to_nat n)).
  set (src := source_points source_type source seed (Z.to_nat n)).
  set (emi := emission_points z (seed + 1) (Z.to_nat n)).
  assert (Hs : length src = Z.to_nat n) by apply source_points_length.
  assert (He : length emi = Z.to_nat n) by apply draw_points_length.
  rewrite add_vec_spec by (rewrite ?length_map; lia). simpl.
  assert (Hvx : length (vadd (map fst src) (map fst emi)) = Z.to_nat n).
  { rewrite vadd_length; rewrite ?length_map; lia. }
  assert (Hvy : length (vadd (map snd src) (map snd emi)) = Z.to_nat n).
  { rewrite vadd_length; rewrite ?length_map; lia. }
  rewrite calculate_rsq_spec by lia. simpl.
  unfold hit_count, landing_points, translate. fold src. fold emi.
  set (pts := combine (vadd (map fst src) (map fst emi))
                      (vadd (map snd src) (map snd emi))).
  assert (Hp : length pts = Z.to_nat n).
  { unfold pts. rewrite length_combine. lia. }
  rewrite <- Hp at 1.
  rewrite <- (length_map squared_radius pts).
  rewrite hit_loop_spec. rewrite filter_map_length. reflexivity.
Qed.

Lemma geom_eff_point_spec (z source : D) (n seed : Z) (source_type : string) :
  (0 <= n <= INT_MAX)%Z ->
  (INT_MIN <= seed < INT_MAX)%Z ->
  valid_source source_type = true ->
  geom_eff_point z source n seed source_type =
  Ret (efficiency_percent z source n seed source_type).
Proof.
  intros Hn Hseed Hty. unfold geom_eff_point.
  rewrite count_hits_spec by assumption. reflexivity.
Qed.

Lemma hit_count_bounds (l : list (D * D)) :
  (0 <= hit_count l <= Z.of_nat (length l))%Z.
Proof.
  unfold hit_count. pose proof (filter_length_le is_hit l). lia.
Qed.

Lemma landing_points_length (z source : D) (n seed : Z) (source_type : string) :
  length (landing_points z source n seed source_type) = Z.to_nat n.
Proof.
  unfold landing_points, translate.
  rewrite length_combine, !vadd_length;
    rewrite ?length_map, ?source_points_length;
    unfold emission_points; rewrite ?draw_points_length; lia.
Qed.

End EstimatorFacts.

Section DriverFacts.

Context {D : Type} {ops : DoubleOps D} {rnd : RandomLib D}.

Lemma rel_er_spec (n : Z) (eff : D) :
  (0 <= n <= 10 ^ 9)%Z -> rel_er n eff = Ret (rel_er_value n eff).
Proof.
  intros Hn. unfold rel_er, int_arith.
  rewrite in_int_true; [reflexivity|].
  unfold INT_MIN, INT_MAX. lia.
Qed.

Lemma pow10_int_spec (p : Z) :
  (0 <= p <= 9)%Z ->
  pow10_int p = Ret (10 ^ p)%Z /\ (1 <= 10 ^ p <= 10 ^ 9)%Z.
Proof.
  intros Hp. unfold pow10_int.
  destruct (Z.ltb_spec p 0); [lia|].
  destruct (Z.leb_spec p 9); [|lia].
  split; [reflexivity|]. split.
  - pose proof (Z.pow_pos_nonneg 10 p). lia.
  - apply Z.pow_le_mono_r; lia.
Qed.

Lemma evaluate_spec (c : call) (log : list call) :
  (0 <= call_n c <= INT_MAX)%Z ->
  (INT_MIN <= call_seed c < INT_MAX)%Z ->
  valid_source (call_type c) = true ->
  evaluate c log =
  Ret (efficiency_percent (call_z c) (call_source c) (call_n c) (call_seed c)
         (call_type c), log ++ [c]).
Proof.
  intros Hn Hs Ht. unfold evaluate.
  rewrite geom_eff_point_spec by assumption. reflexivity.
Qed.

Lemma vget_upd (v : list D) (j : nat) (a : D) :
  (j < length v)%nat -> vget (upd j a v) j = Ret a.
Proof.
  intros H. apply vget_ok. rewrite nth_error_upd, Nat.eqb_refl.
  destruct (Nat.ltb_spec j (length v)); [reflexivity | lia].
Qed.

(** The sweep loop of [main]: at every distance the row is the one
    [sweep_result] describes, every estimator call is logged with the seed
    the sweep started from, and [seed] is left as it was. *)
Lemma sweep_loop_spec (seed0 : Z) (source_type detector_type : string)
    (inp : inputs) (n : Z) (zs : list D) :
  valid_source source_type = true ->
  valid_detector detector_type = true ->
  (0 <= n <= 10 ^ 9)%Z ->
  (INT_MIN <= seed0 < INT_MAX)%Z ->
  length zs = Z.to_nat (n_points inp) ->
  let N := length zs in
  let zeros := repeat (of_int 0) N in
  let res := sweep_result source_type detector_type inp n seed0 in
  let zlast := nth (Z.to_nat (n_points inp - 1)) zs (of_int 0) in
  exists eo ei ro ri,
    for_loop N 0 (main_body source_type detector_type inp n zs)
      (Sweep seed0 zeros zeros zeros zeros zeros zeros [] []) =
    Ret (Sweep seed0 (map (fun z => fst (res z)) zs)
               (map (fun z => snd (res z)) zs) eo ei ro ri
               (map (sweep_console source_type detector_type inp n seed0 zlast) zs)
               (flat_map (sweep_calls source_type detector_type inp n seed0) zs)).
Proof.
  intros Hsty Hdty Hn Hseed Hlen N zeros res zlast.
  assert (HnI : (0 <= n <= INT_MAX)%Z) by (unfold INT_MAX; lia).
  assert (Hzeros : length zeros = N) by apply repeat_length.
  destruct (for_loop_inv
    (fun j st =>
       seed st = seed0 /\
       (length (efficiencies st) = N /\ length (rel_ers st) = N /\
        length (efficiencies_outer st) = N /\
        length (efficiencies_inner st) = N /\
        length (rel_ers_outer st) = N /\ length (rel_ers_inner st) = N) /\
       (forall k, nth_error (efficiencies st) k =
          if (k <? j)%nat then nth_error (map (fun z => fst (res z)) zs) k
          else nth_error zeros k) /\
       (forall k, nth_error (rel_ers st) k =
          if (k <? j)%nat then nth_error (map (fun z => snd (res z)) zs) k
          else nth_error zeros k) /\
       console st =
         map (sweep_console source_type detector_type inp n seed0 zlast)
             (firstn j zs) /\
       calls st =
         flat_map (sweep_calls source_type detector_type inp n seed0)
                  (firstn j zs))
    (main_body source_type detector_type inp n zs) N 0
    (Sweep seed0 zeros zeros zeros zeros zeros zeros [] []))
    as (st & Hst & Hsd & Hls & He & Hr & Hc & Hl).
  - simpl. repeat split; auto.
  - intros j [sd e r eo ei ro ri con log] Hj
      (Hsd & (Le & Lr & Leo & Lei & Lro & Lri) & He & Hr & Hc & Hl).
    simpl in Hsd, Le, Lr, Leo, Lei, Lro, Lri, He, Hr, Hc, Hl. subst sd.
    destruct (nth_error zs j) as [zj|] eqn:Ez;
      [|apply nth_error_None in Ez; lia].
    assert (Hlast : vget zs (Z.to_nat (n_points inp - 1)) = Ret zlast).
    { apply vget_ok. apply nth_error_nth'. lia. }
    assert (Hres1 : nth_error (map (fun z => fst (res z)) zs) j
                    = Some (fst (res zj))).
    { rewrite nth_error_map, Ez. reflexivity. }
    assert (Hres2 : nth_error (map (fun z => snd (res z)) zs) j
                    = Some (snd (res zj))).
    { rewrite nth_error_map, Ez. reflexivity. }
    unfold main_body. cbn [seed calls efficiencies rel_ers efficiencies_outer
      efficiencies_inner rel_ers_outer rel_ers_inner console source].
    unfold valid_detector in Hdty.
    destruct (detector_type =? "circular")%string eqn:Ec.
    + rewrite (vget_ok zs j zj Ez). cbn [bind].
      rewrite evaluate_spec by assumption.
      cbn [bind call_z call_source call_n call_seed call_type].
      rewrite vset_ok by lia. cbn [bind].
      rewrite vget_upd by lia. cbn [bind].
      rewrite rel_er_spec by exact Hn. cbn [bind].
      rewrite vset_ok by lia.
      cbn [bind seed calls efficiencies rel_ers efficiencies_outer
        efficiencies_inner rel_ers_outer rel_ers_inner console].
      rewrite Hlast. cbn [bind].
      rewrite vget_upd by lia. cbn [bind].
      rewrite vget_upd by lia. cbn [bind].
      eexists. split; [reflexivity|].
      cbn [seed calls efficiencies rel_ers efficiencies_outer
        efficiencies_inner rel_ers_outer rel_ers_inner console].
      rewrite !upd_length.
      assert (Hrj : res zj =
        (efficiency_percent zj (source inp) n seed0 source_type,
         rel_er_value n
           (efficiency_percent zj (source inp) n seed0 source_type))).
      { unfold res, sweep_result. rewrite Ec. reflexivity. }
      split; [reflexivity|]. split; [repeat split; assumption|].
      split; [|split; [|split]].
      * apply inplace_step; [lia | | exact He].
        rewrite Hres1, Hrj. reflexivity.
      * apply inplace_step; [lia | | exact Hr].
        rewrite Hres2, Hrj. reflexivity.
      * rewrite (firstn_succ_nth zs j zj Ez), map_app, <- Hc. simpl.
        unfold sweep_console. fold res. rewrite Hrj. reflexivity.
      * rewrite (firstn_succ_nth zs j zj Ez), flat_map_app, <- Hl. simpl.
        rewrite app_nil_r. unfold sweep_calls. rewrite Ec. reflexivity.
    + simpl in Hdty. rewrite Hdty.
      rewrite (vget_ok zs j zj Ez). cbn [bind].
      rewrite evaluate_spec by assumption.
      cbn [bind call_z call_source call_n call_seed call_type].
      rewrite vset_ok by lia. cbn [bind].
      rewrite evaluate_spec by assumption.
      cbn [bind call_z call_source call_n call_seed call_type].
      rewrite vset_ok by lia. cbn [bind].
      rewrite !vget_upd by lia. cbn [bind].
      rewrite vset_ok by lia. cbn [bind].
      rewrite !rel_er_spec by exact Hn. cbn [bind].
      rewrite vset_ok by lia. cbn [bind].
      rewrite vset_ok by lia. cbn [bind].
      rewrite !vget_upd by lia. cbn [bind].
      rewrite vset_ok by lia.
      cbn [bind seed calls efficiencies rel_ers efficiencies_outer
        efficiencies_inner rel_ers_outer rel_ers_inner console].
      rewrite Hlast. cbn [bind].
      rewrite !vget_upd by lia. cbn [bind].
      eexists. split; [reflexivity|].
      cbn [seed calls efficiencies rel_ers efficiencies_outer
        efficiencies_inner rel_ers_outer rel_ers_inner console].
      rewrite !upd_length.
      assert (Hrj : res zj = annular_result source_type inp n seed0 zj).
      { unfold res, sweep_result. rewrite Ec. reflexivity. }
      split; [reflexivity|]. split; [repeat split; assumption|].
      split; [|split; [|split]].
      * apply inplace_step; [lia | | exact He].
        rewrite Hres1, Hrj. reflexivity.
      * apply inplace_step; [lia | | exact Hr].
        rewrite Hres2, Hrj. reflexivity.
      * rewrite (firstn_succ_nth zs j zj Ez), map_app, <- Hc. simpl.
        unfold sweep_console. fold res. rewrite Hrj. reflexivity.
      * rewrite (firstn_succ_nth zs j zj Ez), flat_map_app, <- Hl. simpl.
        rewrite app_nil_r, <- app_assoc. unfold sweep_calls. rewrite Ec.
        reflexivity.
  - destruct st as [sd e r eo ei ro ri con log].
    simpl in Hsd, Hls, He, Hr, Hc, Hl.
    destruct Hls as (Le & Lr & _).
    exists eo, ei, ro, ri. rewrite Hst. f_equal.
    unfold N in Hc, Hl. rewrite firstn_all in Hc, Hl. subst sd con log. f_equal.
    + apply inplace_final with (v0 := zeros) (n := N); auto.
      apply length_map.
    + apply inplace_final with (v0 := zeros) (n := N); auto.
      apply length_map.
Qed.

End DriverFacts.

Section RunFacts.

Context {D : Type} {ops : DoubleOps D} {rnd : RandomLib D}.

Lemma write_geo_file_spec (f g : D -> D) (zs : list D) :
  (Z.of_nat (length zs) <= INT_MAX)%Z ->
  write_geo_file zs (map f zs) (map g zs) =
  Ret (map (fun z => (z, point_source_value z, f z, g z)) zs).
Proof.
  intros Hz. unfold write_geo_file.
  rewrite point_source_spec by exact Hz. cbn [bind].
  destruct (for_loop_inv
    (fun j lines =>
       lines = map (fun z => (z, point_source_value z, f z, g z)) (firstn j zs))
    (write_body zs (map point_source_value zs) (map f zs) (map g zs))
    (length zs) 0 []) as (lines & Hl & Hv).
  - reflexivity.
  - intros j t Hj Ht.
    destruct (nth_error zs j) as [zj|] eqn:Ez;
      [|apply nth_error_None in Ez; lia].
    unfold write_body.
    rewrite (vget_ok zs j zj Ez). cbn [bind].
    rewrite (vget_ok (map point_source_value zs) j (point_source_value zj))
      by (rewrite nth_error_map, Ez; reflexivity).
    cbn [bind].
    rewrite (vget_ok (map f zs) j (f zj))
      by (rewrite nth_error_map, Ez; reflexivity).
    cbn [bind].
    rewrite (vget_ok (map g zs) j (g zj))
      by (rewrite nth_error_map, Ez; reflexivity).
    cbn [bind].
    eexists. split; [reflexivity|]. cbv beta.
    rewrite (firstn_succ_nth zs j zj Ez), map_app, Ht. reflexivity.
  - etransitivity; [exact Hl|]. rewrite Hv. simpl.
    rewrite firstn_all. reflexivity.
Qed.

Lemma linspace_values_length (min max : D) (n : Z) :
  length (linspace_values min max n) = Z.to_nat n.
Proof. unfold linspace_values. rewrite length_map, length_seq. reflexivity. Qed.

(** A sweep over well-formed inputs runs to completion, and this is what it
    leaves. *)
Lemma sweep_from_spec (seed0 : Z) (source_type detector_type : string)
    (inp : inputs) :
  valid_source source_type = true ->
  valid_detector detector_type = true ->
  (0 <= power inp <= 9)%Z ->
  (0 <= n_points inp <= INT_MAX)%Z ->
  (INT_MIN <= seed0 < INT_MAX)%Z ->
  let n := (10 ^ power inp)%Z in
  let zs := linspace_values (z_min inp) (z_max inp) (n_points inp) in
  let zlast := nth (Z.to_nat (n_points inp - 1)) zs (of_int 0) in
  sweep_from seed0 source_type detector_type inp =
  Ret (Run (map (sweep_console source_type detector_type inp n seed0 zlast) zs)
           (filename inp,
            map (sweep_file source_type detector_type inp n seed0) zs)
           (flat_map (sweep_calls source_type detector_type inp n seed0) zs)
           seed0 1).
Proof.
  intros Hsty Hdty Hp Hnp Hseed n zs zlast. unfold sweep_from.
  destruct (pow10_int_spec (power inp) Hp) as [Hpow Hn].
  rewrite Hpow. cbn [bind].
  rewrite linspace_spec by lia. cbn [bind]. fold zs.
  rewrite new_vector_ok by lia. cbn [bind].
  assert (Hlen : length zs = Z.to_nat (n_points inp))
    by apply linspace_values_length.
  rewrite <- Hlen.
  destruct (sweep_loop_spec seed0 source_type detector_type inp n zs
              Hsty Hdty ltac:(lia) Hseed Hlen) as (eo & ei & ro & ri & Hloop).
  fold n. rewrite Hloop. cbn [bind efficiencies rel_ers console calls seed].
  rewrite (write_geo_file_spec
             (fun z => fst (sweep_result source_type detector_type inp n seed0 z))
             (fun z => snd (sweep_result source_type detector_type inp n seed0 z)))
    by lia.
  reflexivity.
Qed.

(** A negative number of points ends the run in the vector constructor of
    [linspace], before any evaluation. *)
Lemma sweep_negative_points (seed0 : Z) (source_type detector_type : string)
    (inp : inputs) :
  (0 <= power inp <= 9)%Z ->
  (n_points inp < 0)%Z ->
  sweep_from seed0 source_type detector_type inp = Throw "std::length_error".
Proof.
  intros Hp Hn. unfold sweep_from.
  rewrite (proj1 (pow10_int_spec (power inp) Hp)). cbn [bind].
  rewrite linspace_negative by exact Hn. reflexivity.
Qed.

Lemma main_spec (prog source_type detector_type : string) (inp : inputs) :
  valid_source source_type = true ->
  valid_detector detector_type = true ->
  main [prog; source_type; detector_type] inp =
  sweep_from 15763027 source_type detector_type inp.
Proof.
  intros Hs Hd. unfold main. simpl.
  unfold valid_source in Hs. unfold valid_detector in Hd.
  destruct (source_type =? "uniform")%string;
    destruct (source_type =? "gaussian")%string; simpl in *; try discriminate;
    destruct (detector_type =? "circular")%string;
    destruct (detector_type =? "annular")%string; simpl in *;
    try discriminate; reflexivity.
Qed.

End RunFacts.

(** * The claims *)

Section Claims.

Context {D : Type} {ops : DoubleOps D} {rnd : RandomLib D}.

Lemma vadd_nth (a : list D) :
  forall b i u v,
    nth_error a i = Some u -> nth_error b i = Some v ->
    nth_error (vadd a b) i = Some (dadd u v).
Proof. exact (nth_error_vadd a). Qed.

Lemma translate_nth (a b : list (D * D)) (i : nat) (p q : D * D) :
  length a = length b ->
  nth_error a i = Some p -> nth_error b i = Some q ->
  nth_error (translate a b) i =
  Some (dadd (fst p) (fst q), dadd (snd p) (snd q)).
Proof.
  intros Hab Hp Hq. unfold translate.
  assert (Hx : nth_error (vadd (map fst a) (map fst b)) i
               = Some (dadd (fst p) (fst q))).
  { apply vadd_nth; rewrite nth_error_map; [rewrite Hp | rewrite Hq];
      reflexivity. }
  assert (Hy : nth_error (vadd (map snd a) (map snd b)) i
               = Some (dadd (snd p) (snd q))).
  { apply vadd_nth; rewrite nth_error_map; [rewrite Hp | rewrite Hq];
      reflexivity. }
  set (X := vadd (map fst a) (map fst b)) in *.
  set (Y := vadd (map snd a) (map snd b)) in *.
  clearbody X Y. clear Hp Hq Hab. revert Y i Hx Hy.
  induction X as [|u X IH]; intros [|v Y] [|i] Hx Hy; simpl in *;
    try discriminate.
  - congruence.
  - apply IH; assumption.
Qed.

(** C1.  One evaluation of the estimator, for a sample count [n >= 1], a seed
    [s] that can be incremented and a recognised source profile: the [n]
    source points are the first [n] draws of the source generator seeded with
    [s], the [n] emission offsets are the first [n] draws of the isotropic
    generator seeded with [s + 1], the two batches are added elementwise, a
    point is a hit when x*x + y*y <= 1, and the value returned is
    50 * hits / n. *)
Theorem estimator_evaluation (z source : D) (n s : Z) (source_type : string) :
  (1 <= n <= INT_MAX)%Z ->
  (INT_MIN <= s < INT_MAX)%Z ->
  valid_source source_type = true ->
  let N := Z.to_nat n in
  let src := source_points source_type source s N in
  let emi := emission_points z (s + 1) N in
  let landed := translate src emi in
  length src = N /\ length emi = N /\ length landed = N /\
  (forall i p q, nth_error src i = Some p -> nth_error emi i = Some q ->
     nth_error landed i = Some (dadd (fst p) (fst q), dadd (snd p) (snd q))) /\
  (forall p, is_hit p =
     dleb (dadd (dmul (fst p) (fst p)) (dmul (snd p) (snd p))) (of_int 1)) /\
  geom_eff_point z source n s source_type =
  Ret (ddiv (dmul (of_int 50)
                  (of_int (Z.of_nat (length (filter is_hit landed)))))
            (of_int n)).
Proof.
  intros Hn Hs Hty N src emi landed.
  assert (Hsrc : length src = N) by apply source_points_length.
  assert (Hemi : length emi = N) by apply draw_points_length.
  split; [exact Hsrc|]. split; [exact Hemi|]. split.
  { apply (landing_points_length z source n s source_type). }
  split.
  { intros i p q Hp Hq. apply translate_nth; congruence. }
  split; [reflexivity|].
  rewrite geom_eff_point_spec by (assumption || lia). reflexivity.
Qed.

(** C2, as the code has it.  [geom_eff_point] takes the seed by value and
    [main] never assigns its [seed]: in a sweep from an initial seed, every
    estimator call receives that same initial seed (the increment inside an
    evaluation, see C1, is local to it), the driver's seed is unchanged at the
    end, and there are one (circular) or two (annular) calls per distance. *)
Theorem sweep_seed_is_constant (seed0 : Z) (source_type detector_type : string)
    (inp : inputs) :
  valid_source source_type = true ->
  valid_detector detector_type = true ->
  (0 <= power inp <= 9)%Z ->
  (0 <= n_points inp <= INT_MAX)%Z ->
  (INT_MIN <= seed0 < INT_MAX)%Z ->
  exists r,
    sweep_from seed0 source_type detector_type inp = Ret r /\
    run_seed r = seed0 /\
    Forall (fun c => call_seed c = seed0) (run_calls r) /\
    length (run_calls r) =
      ((if (detector_type =? "circular")%string then 1 else 2)
       * Z.to_nat (n_points inp))%nat.
Proof.
  intros Hs Hd Hp Hn Hseed.
  eexists. split; [apply sweep_from_spec; assumption|].
  cbn [run_seed run_calls]. split; [reflexivity|].
  set (zs := linspace_values (z_min inp) (z_max inp) (n_points inp)).
  assert (Hlen : length zs = Z.to_nat (n_points inp))
    by apply linspace_values_length.
  rewrite <- Hlen. clear Hlen. clearbody zs.
  split.
  - apply Forall_flat_map. apply Forall_forall. intros zi _.
    unfold sweep_calls.
    destruct (detector_type =? "circular")%string;
      repeat constructor.
  - induction zs as [|zi zs IH]; simpl.
    + destruct (detector_type =? "circular")%string; reflexivity.
    + rewrite length_app, IH. unfold sweep_calls.
      destruct (detector_type =? "circular")%string; simpl; lia.
Qed.

End Claims.

Lemma estimator_evaluation_witness :
  @geom_eff_point float sample_float_ops sample_float_random
    1%float 0%float 10 15763027 "uniform" =
  Ret (PrimFloat.div
         (PrimFloat.mul 50%float
            (float_of_int (Z.of_nat (length (filter
               (@is_hit float sample_float_ops)
               (@translate float sample_float_ops
                  (@source_points float sample_float_ops sample_float_random
                     "uniform" 0%float 15763027 10)
                  (@emission_points float sample_float_ops sample_float_random
                     1%float 15763028 10)))))))
         (float_of_int 10)).
Proof.
  refine (proj2 (proj2 (proj2 (proj2 (proj2
    (@estimator_evaluation float sample_float_ops sample_float_random
       1%float 0%float 10 15763027 "uniform" _ _ _)))))).
  - unfold INT_MAX. lia.
  - unfold INT_MIN, INT_MAX. lia.
  - reflexivity.
Defined.

Lemma sweep_seed_is_constant_witness :
  exists r,
    @sweep_from float sample_float_ops sample_float_random 15763027
      "uniform" "annular"
      (Inputs 0%float 5%float 3 0%float 1 0.5%float "out.txt") = Ret r /\
    run_seed r = 15763027%Z /\
    Forall (fun c => call_seed c = 15763027%Z) (run_calls r) /\
    length (run_calls r) = 6%nat.
Proof.
  refine (@sweep_seed_is_constant float sample_float_ops sample_float_random
            15763027 "uniform" "annular"
            (Inputs 0%float 5%float 3 0%float 1 0.5%float "out.txt")
            _ _ _ _ _).
  - reflexivity.
  - reflexivity.
  - simpl. lia.
  - simpl. unfold INT_MAX. lia.
  - unfold INT_MIN, INT_MAX. lia.
Defined.

(** C2, as the spec words it, fails: in a circular sweep over two distances
    the second evaluation receives the very seed of the first. *)
Lemma sweep_reuses_seed :
  exists r,
    @main float sample_float_ops sample_float_random
      ["Isotropic_emission"; "uniform"; "circular"]%string
      (Inputs 0%float 5%float 2 0%float 1 0.5%float "out.txt") = Ret r /\
    map call_seed (run_calls r) = [15763027; 15763027]%Z /\
    map call_z (run_calls r) = [0%float; 5%float].
Proof.
  eexists. split; [vm_compute; reflexivity|]. split; reflexivity.
Qed.

Section RealLinspace.

Lemma linspace_values_nth {D : Type} {ops : DoubleOps D} (min max : D)
    (n : Z) (i : nat) :
  (i < Z.to_nat n)%nat ->
  nth_error (linspace_values min max n) i =
  Some (dadd min
          (dmul (ddiv (dsub max min) (dmul (of_int 1) (of_int (n - 1))))
                (of_int (Z.of_nat i)))).
Proof.
  intros Hi. unfold linspace_values.
  rewrite nth_error_map, nth_error_seq.
  destruct (Nat.ltb_spec i (Z.to_nat n)); [reflexivity | lia].
Qed.

(** On the reals, [n >= 2] points run from [a] to [b], both included, in
    equal steps of [(b - a) / (n - 1)]. *)
Lemma linspace_real (a b : R) (n : Z) :
  (2 <= n)%Z ->
  let zs := @linspace_values R R_ops a b n in
  nth_error zs 0 = Some a /\
  nth_error zs (Z.to_nat n - 1) = Some b /\
  forall i u v, nth_error zs i = Some u ->
    nth_error zs (Datatypes.S i) = Some v ->
    (v - u = (b - a) / (IZR n - 1))%R.
Proof.
  intros Hn zs.
  assert (Hd : (IZR (n - 1) <> 0)%R).
  { apply not_0_IZR. lia. }
  split; [|split].
  - unfold zs. rewrite linspace_values_nth by lia. simpl. f_equal. lra.
  - unfold zs. rewrite linspace_values_nth by lia. simpl. f_equal.
    replace (Z.of_nat (Z.to_nat n - 1)) with (n - 1)%Z by lia.
    field. exact Hd.
  - intros i u v Hu Hv.
    assert (Hi : (Datatypes.S i < Z.to_nat n)%nat).
    { apply nth_error_lt in Hv. unfold zs in Hv.
      rewrite linspace_values_length in Hv. exact Hv. }
    unfold zs in Hu, Hv.
    rewrite linspace_values_nth in Hu, Hv by lia.
    injection Hu as <-. injection Hv as <-.
    cbn [dadd dmul ddiv dsub of_int R_ops].
    change (Z.pos (Pos.of_succ_nat i)) with (Z.of_nat (Datatypes.S i)).
    rewrite Nat2Z.inj_succ, succ_IZR. rewrite minus_IZR in *.
    field. exact Hd.
Qed.

End RealLinspace.

Section ClaimsDriver.

Context {D : Type} {ops : DoubleOps D} {rnd : RandomLib D}.

(** C3, as the code has it.  The driver makes no check of [n_points]: for
    every [n_points >= 0], 0 and 1 included, [linspace] returns exactly
    [n_points] distances [z_min + delta * i] with
    [delta = (z_max - z_min) / (1.0 * (n_points - 1))], and the sweep
    evaluates the estimator at each of them and runs to completion, without an
    error exit.  For [n_points >= 2], in real arithmetic, the distances run
    from the first endpoint to the last, both included, in equal steps of
    (max - min) / (n_points - 1). *)
Theorem sweep_distances (prog source_type detector_type : string)
    (inp : inputs) (a b : R) :
  valid_source source_type = true ->
  valid_detector detector_type = true ->
  (0 <= power inp <= 9)%Z ->
  (0 <= n_points inp <= INT_MAX)%Z ->
  let n := n_points inp in
  let delta :=
    ddiv (dsub (z_max inp) (z_min inp)) (dmul (of_int 1) (of_int (n - 1))) in
  (exists zs r,
     linspace (z_min inp) (z_max inp) n = Ret zs /\
     length zs = Z.to_nat n /\
     (forall i, (i < Z.to_nat n)%nat ->
        nth_error zs i =
        Some (dadd (z_min inp) (dmul delta (of_int (Z.of_nat i))))) /\
     main [prog; source_type; detector_type] inp = Ret r /\
     map (fun row => fst (fst (fst row))) (snd (run_file r)) = zs /\
     map call_z (run_calls r) =
       flat_map (fun z => if (detector_type =? "circular")%string then [z]
                          else [z; dmul z (det_fraction inp)]) zs) /\
  ((2 <= n)%Z ->
   exists zs,
     @linspace R R_ops a b n = Ret zs /\
     length zs = Z.to_nat n /\
     nth_error zs 0 = Some a /\
     nth_error zs (Z.to_nat n - 1) = Some b /\
     forall i u v, nth_error zs i = Some u ->
       nth_error zs (Datatypes.S i) = Some v ->
       (v - u = (b - a) / (IZR n - 1))%R).
Proof.
  intros Hs Hd Hp Hn n delta. split.
  - exists (linspace_values (z_min inp) (z_max inp) n). eexists.
    split; [apply linspace_spec; lia|].
    split; [apply linspace_values_length|].
    split; [intros i Hi; apply linspace_values_nth; exact Hi|].
    split.
    { rewrite main_spec by assumption.
      apply sweep_from_spec; try assumption.
      unfold INT_MIN, INT_MAX. lia. }
    cbn [run_file run_calls snd]. fold n.
    set (zs := linspace_values (z_min inp) (z_max inp) n). clearbody zs.
    split.
    + rewrite map_map. unfold sweep_file. simpl. apply map_id.
    + induction zs as [|zi zs IH]; [reflexivity|].
      simpl. rewrite map_app, IH. f_equal. unfold sweep_calls.
      destruct (detector_type =? "circular")%string; reflexivity.
  - intros H2. exists (@linspace_values R R_ops a b n).
    split; [apply linspace_spec; lia|].
    split; [apply linspace_values_length|].
    apply linspace_real. exact H2.
Qed.

(** C4.  For an annular detector, at every distance [z] of the sweep the
    driver calls the estimator exactly twice, at (z, source) and at
    (z * ratio, source * ratio), with the same seed, and reports
    efficiency = outer - inner and
    relative error = sqrt(rel_outer^2 + rel_inner^2), where each rel is
    100 / sqrt(2 * n * efficiency / 100). *)
Theorem annular_sweep (prog source_type : string) (inp : inputs) :
  valid_source source_type = true ->
  (0 <= power inp <= 9)%Z ->
  (0 <= n_points inp <= INT_MAX)%Z ->
  let n := (10 ^ power inp)%Z in
  let seed := 15763027%Z in
  let ratio := det_fraction inp in
  let zs := linspace_values (z_min inp) (z_max inp) (n_points inp) in
  let outer z := efficiency_percent z (source inp) n seed source_type in
  let inner z :=
    efficiency_percent (dmul z ratio) (dmul (source inp) ratio) n seed
                       source_type in
  let rel e :=
    ddiv (of_int 100)
         (dsqrt (ddiv (dmul (of_int (2 * n)) e) (of_int 100))) in
  exists r,
    main [prog; source_type; "annular"%string] inp = Ret r /\
    run_calls r =
      flat_map (fun z => [Call z (source inp) n seed source_type;
                          Call (dmul z ratio) (dmul (source inp) ratio) n seed
                               source_type]) zs /\
    (forall z,
       geom_eff_point z (source inp) n seed source_type = Ret (outer z) /\
       geom_eff_point (dmul z ratio) (dmul (source inp) ratio) n seed
                      source_type = Ret (inner z)) /\
    snd (run_file r) =
      map (fun z =>
             (z, point_source_value z, dsub (outer z) (inner z),
              dsqrt (dadd (dmul (rel (outer z)) (rel (outer z)))
                          (dmul (rel (inner z)) (rel (inner z)))))) zs.
Proof.
  intros Hs Hp Hn n seed ratio zs outer inner rel.
  destruct (pow10_int_spec (power inp) Hp) as [_ Hn10]. fold n in Hn10.
  assert (HnI : (0 <= n <= INT_MAX)%Z) by (unfold INT_MAX; lia).
  assert (Hseed : (INT_MIN <= seed < INT_MAX)%Z)
    by (unfold seed, INT_MIN, INT_MAX; lia).
  eexists. split.
  { rewrite main_spec by (assumption || reflexivity).
    apply sweep_from_spec; try assumption. reflexivity. }
  cbn [run_calls run_file snd]. split; [reflexivity|]. split.
  - intros z. split; apply geom_eff_point_spec; assumption.
  - reflexivity.
Qed.

End ClaimsDriver.

Lemma sweep_distances_witness :
  exists zs r,
    @linspace float sample_float_ops 0%float 5%float 6 = Ret zs /\
    length zs = 6%nat /\
    @main float sample_float_ops sample_float_random
      ["Isotropic_emission"; "uniform"; "circular"]%string
      (Inputs 0%float 5%float 6 0%float 2 1%float "out.txt") = Ret r /\
    map (fun row => fst (fst (fst row))) (snd (run_file r)) = zs.
Proof.
  destruct (@sweep_distances float sample_float_ops sample_float_random
              "Isotropic_emission" "uniform" "circular"
              (Inputs 0%float 5%float 6 0%float 2 1%float "out.txt")
              0%R 5%R) as [(zs & r & H1 & H2 & _ & H4 & H5 & _) _].
  - reflexivity.
  - reflexivity.
  - simpl. lia.
  - simpl. unfold INT_MAX. lia.
  - exists zs, r. repeat split; assumption.
Defined.

(** C3, as the spec words it, fails: with [n_points = 1] or [n_points = 0]
    the run does not stop on an error.  With one point the single distance is
    0 + (5 / 0) * 0, a NaN, and the estimator is evaluated there; with no point
    the run completes with an empty table. *)
Lemma sweep_accepts_fewer_than_two_points :
  (exists r,
     @main float sample_float_ops sample_float_random
       ["Isotropic_emission"; "uniform"; "circular"]%string
       (Inputs 0%float 5%float 1 0%float 1 1%float "out.txt") = Ret r /\
     length (run_calls r) = 1%nat /\
     map (fun c => PrimFloat.is_nan (call_z c)) (run_calls r) = [true] /\
     run_status r = 1%Z) /\
  (exists r,
     @main float sample_float_ops sample_float_random
       ["Isotropic_emission"; "uniform"; "circular"]%string
       (Inputs 0%float 5%float 0 0%float 1 1%float "out.txt") = Ret r /\
     run_calls r = [] /\ snd (run_file r) = [] /\ run_status r = 1%Z).
Proof.
  split; eexists; (split; [vm_compute; reflexivity|]); repeat split.
Qed.

Lemma annular_sweep_witness :
  exists r,
    @main float sample_float_ops sample_float_random
      ["Isotropic_emission"; "gaussian"; "annular"]%string
      (Inputs 0%float 5%float 3 0.5%float 1 0.5%float "out.txt") = Ret r /\
    map (fun c => (call_z c, call_source c, call_seed c)) (run_calls r) =
      [(0%float, 0.5%float, 15763027%Z); (0%float, 0.25%float, 15763027%Z);
       (2.5%float, 0.5%float, 15763027%Z); (1.25%float, 0.25%float, 15763027%Z);
       (5%float, 0.5%float, 15763027%Z); (2.5%float, 0.25%float, 15763027%Z)].
Proof.
  destruct (@annular_sweep float sample_float_ops sample_float_random
              "Isotropic_emission" "gaussian"
              (Inputs 0%float 5%float 3 0.5%float 1 0.5%float "out.txt"))
    as (r & H1 & H2 & _).
  - reflexivity.
  - simpl. lia.
  - simpl. unfold INT_MAX. lia.
  - exists r. split; [exact H1|]. rewrite H2. vm_compute. reflexivity.
Defined.

(** ** Binary64 facts

    The specification of the primitive floats ([SpecFloat]) gives a double
    as a sign, a mantissa and an exponent, and the operations as exact
    integer computations followed by a rounding.  What follows computes with
    that specification: the canonical form of an [int] converted to a double,
    the exact product by 50, and a bound on a rounded quotient. *)

Section Binary64.

Local Open Scope Z_scope.

Ltac std_Z :=
  change IntDef.Z.add with Z.add in *; change IntDef.Z.sub with Z.sub in *;
  change IntDef.Z.max with Z.max in *; change IntDef.Z.leb with Z.leb in *;
  change IntDef.Z.mul with Z.mul in *; change IntDef.Z.min with Z.min in *;
  change IntDef.Z.eqb with Z.eqb in *; change IntDef.Z.compare with Z.compare in *;
  change IntDef.Z.even with Z.even in *; change IntDef.Z.shiftl with Z.shiftl in *;
  change IntDef.Z.div_eucl with Z.div_eucl in *.

Lemma dig_bounds (p : positive) : 2 ^ (dig p - 1) <= Zpos p < 2 ^ dig p.
Proof.
  unfold dig. induction p as [p IH|p IH|]; simpl digits2_pos.
  - rewrite Pos2Z.inj_succ.
    replace (Z.succ (Zpos (digits2_pos p)) - 1) with (Z.succ (Zpos (digits2_pos p) - 1)) by lia.
    rewrite !Z.pow_succ_r by lia. lia.
  - rewrite Pos2Z.inj_succ.
    replace (Z.succ (Zpos (digits2_pos p)) - 1) with (Z.succ (Zpos (digits2_pos p) - 1)) by lia.
    rewrite !Z.pow_succ_r by lia. lia.
  - simpl. lia.
Qed.

Lemma dig_unique (p : positive) (k : Z) :
  2 ^ (k - 1) <= Zpos p < 2 ^ k -> dig p = k.
Proof.
  intros H. pose proof (dig_bounds p) as Hp.
  assert (Hd : 1 <= dig p) by (unfold dig; lia).
  assert (Hk : 1 <= k).
  { destruct (Z_lt_le_dec k 1) as [Hlt|]; [|lia].
    assert (2 ^ k <= 2 ^ 0) by (destruct (Z_lt_le_dec k 0);
      [rewrite Z.pow_neg_r by lia; simpl; lia | apply Z.pow_le_mono_r; lia]).
    simpl in *. lia. }
  destruct (Z.lt_trichotomy (dig p) k) as [Hlt|[Heq|Hgt]]; [|exact Heq|].
  - assert (2 ^ dig p <= 2 ^ (k - 1)) by (apply Z.pow_le_mono_r; lia). lia.
  - assert (2 ^ k <= 2 ^ (dig p - 1)) by (apply Z.pow_le_mono_r; lia). lia.
Qed.

Lemma iter_pos_nat {A : Type} (f : A -> A) (p : positive) :
  forall x, iter_pos f p x = Nat.iter (Pos.to_nat p) f x.
Proof.
  induction p as [p IH|p IH|]; intros x; cbn [iter_pos].
  - rewrite !IH, Pos2Nat.inj_xI. rewrite <- Nat.iter_add.
    replace (Pos.to_nat p + Pos.to_nat p)%nat with (2 * Pos.to_nat p)%nat by lia.
    symmetry. apply Nat.iter_succ_r.
  - rewrite !IH, Pos2Nat.inj_xO. rewrite <- Nat.iter_add.
    f_equal. lia.
  - reflexivity.
Qed.

Lemma shr_1_even (a : Z) :
  0 <= a -> shr_1 (Build_shr_record (2 * a) false false) = Build_shr_record a false false.
Proof. intros H. destruct a as [|p|p]; try lia; reflexivity. Qed.

Lemma shr_exact_nat (k : nat) :
  forall a, 0 <= a ->
  Nat.iter k shr_1 (Build_shr_record (a * 2 ^ Z.of_nat k) false false)
  = Build_shr_record a false false.
Proof.
  induction k as [|k IH]; intros a Ha.
  - simpl. f_equal. lia.
  - rewrite Nat.iter_succ_r.
    replace (a * 2 ^ Z.of_nat (S k)) with (2 * (a * 2 ^ Z.of_nat k)).
    + rewrite shr_1_even by (apply Z.mul_nonneg_nonneg; [lia | apply Z.pow_nonneg; lia]).
      apply IH. exact Ha.
    + rewrite Nat2Z.inj_succ, Z.pow_succ_r by lia. ring.
Qed.

Lemma shr_exact (a : Z) (e : Z) (s : Z) :
  0 <= a -> 0 <= s ->
  shr (Build_shr_record (a * 2 ^ s) false false) e s
  = (Build_shr_record a false false, e + s).
Proof.
  intros Ha Hs. destruct s as [|p|p]; try lia.
  - simpl. f_equal; [f_equal|]; lia.
  - unfold shr. std_Z. f_equal. rewrite iter_pos_nat.
    rewrite <- (positive_nat_Z p) at 1. apply shr_exact_nat. exact Ha.
Qed.

Lemma fexp_normal (x : Z) :
  -1021 <= x -> fexp prec emax x = x - 53.
Proof. intros H. unfold fexp, SpecFloat.emin, prec, emax. std_Z. lia. Qed.

Lemma Zdigits2_pos (p : positive) : Zdigits2 (Zpos p) = dig p.
Proof. reflexivity. Qed.

Lemma pow2_pos (s : Z) : 0 <= s -> 0 < 2 ^ s.
Proof. intros H. apply Z.pow_pos_nonneg; lia. Qed.

Lemma dig_shift (a : positive) (s : Z) (p : positive) :
  0 <= s -> Zpos p = Zpos a * 2 ^ s -> dig p = dig a + s.
Proof.
  intros Hs Hp. apply dig_unique. pose proof (dig_bounds a) as Ha.
  assert (Hd : 1 <= dig a) by (unfold dig; lia).
  replace (dig a + s - 1) with ((dig a - 1) + s) by lia.
  rewrite !Z.pow_add_r by lia. rewrite Hp.
  pose proof (pow2_pos s Hs). nia.
Qed.

(** The last step of the rounding: a mantissa of 53 bits stays, and 2^53
    becomes 2^52 one exponent up. *)
Lemma round_final (m2 : positive) (e1 : Z) :
  2 ^ 52 <= Zpos m2 <= 2 ^ 53 -> -1074 <= e1 <= 970 ->
  exists mf ef,
    (let '(mrs, e) := shr_fexp prec emax (Zpos m2) e1 loc_Exact in
     match shr_m mrs with
     | Z0 => S754_zero false
     | Zpos m => if Z.leb e (Z.sub emax prec) then S754_finite false m e
                 else S754_infinity false
     | Zneg _ => S754_nan
     end) = S754_finite false mf ef /\
    dig mf = 53 /\
    (ef = e1 /\ mf = m2 \/ ef = e1 + 1 /\ Zpos m2 = 2 ^ 53 /\ Zpos mf = 2 ^ 52).
Proof.
  intros Hm He.
  destruct (Z_lt_le_dec (Zpos m2) (2 ^ 53)) as [Hlt|Hge].
  - assert (Hd : dig m2 = 53) by (apply dig_unique; lia).
    exists m2, e1. unfold shr_fexp. rewrite Zdigits2_pos, Hd. std_Z.
    rewrite (fexp_normal (53 + e1)) by lia.
    replace (53 + e1 - 53 - e1) with 0 by lia. cbn [shr shr_record_of_loc shr_m].
    destruct (Z.leb_spec e1 (emax - prec)) as [H|H];
      [|unfold emax, prec in H; lia].
    split; [reflexivity|]. split; [reflexivity|]. left. split; reflexivity.
  - assert (Heq : Zpos m2 = 2 ^ 53) by lia.
    assert (Hd : dig m2 = 54) by (apply dig_unique; lia).
    exists (Z.to_pos (2 ^ 52)), (e1 + 1). unfold shr_fexp.
    rewrite Zdigits2_pos, Hd. std_Z.
    rewrite (fexp_normal (54 + e1)) by lia.
    replace (54 + e1 - 53 - e1) with 1 by lia.
    cbn [shr_record_of_loc]. rewrite Heq.
    change (2 ^ 53) with (2 ^ 52 * 2 ^ 1).
    rewrite shr_exact by lia. cbn [shr_m].
    destruct (Z.leb_spec (e1 + 1) (emax - prec)) as [H|H];
      [|unfold emax, prec in H; lia].
    split; [reflexivity|]. split; [reflexivity|]. right.
    split; [reflexivity|]. split; reflexivity.
Qed.

Lemma loc_of_record_of_loc (m : Z) (l : location) :
  loc_of_shr_record (shr_record_of_loc m l) = l.
Proof. destruct l as [|[| |]]; reflexivity. Qed.

Lemma round_nearest_even_range (m : Z) (l : location) :
  (l = loc_Exact -> round_nearest_even m l = m) /\
  m <= round_nearest_even m l <= m + 1.
Proof.
  split.
  - intros ->. reflexivity.
  - destruct l as [|[| |]]; simpl; std_Z; try lia.
    destruct (Z.even m); lia.
Qed.

Lemma shr_1_m (m : Z) (r s : bool) :
  0 <= m -> shr_m (shr_1 (Build_shr_record m r s)) = m / 2.
Proof.
  intros Hm. destruct m as [|p|p]; [reflexivity| |lia].
  destruct p as [p|p|]; cbn [shr_1 shr_m].
  - rewrite Pos2Z.inj_xI. apply Z.div_unique_pos with (r := 1); lia.
  - rewrite Pos2Z.inj_xO. apply Z.div_unique_pos with (r := 0); lia.
  - reflexivity.
Qed.

Lemma shr_m_shr_1_loc (m : Z) (l : location) :
  0 <= m -> shr_m (shr_1 (shr_record_of_loc m l)) = m / 2.
Proof. intros Hm. destruct l as [|[| |]]; apply shr_1_m; exact Hm. Qed.

Lemma mod4_even (B : Z) : B mod 4 = 0 -> B = 2 * (B / 2) /\ (B / 2) mod 2 = 0.
Proof.
  intros H. pose proof (Z.div_mod B 4 ltac:(lia)) as Hd. rewrite H in Hd.
  assert (H2 : B / 2 = 2 * (B / 4)).
  { symmetry. apply Z.div_unique_pos with (r := 0); lia. }
  split; [lia|]. rewrite H2. rewrite Z.mul_comm. apply Z.mod_mul. lia.
Qed.

(** Rounding a quotient of 53 or 54 bits that does not exceed an even bound
    [B], and is exact when it meets it, gives a mantissa of 53 bits that does
    not exceed the bound either. *)
Lemma round_bound (q : positive) (e : Z) (l : location) (B : Z) :
  2 ^ 52 <= Zpos q < 2 ^ 54 ->
  -1074 <= e <= 960 ->
  Zpos q <= B -> (Zpos q = B -> l = loc_Exact) ->
  B mod 4 = 0 ->
  exists mf ef,
    binary_round_aux prec emax false (Zpos q) e l = S754_finite false mf ef /\
    dig mf = 53 /\ e <= ef <= e + 2 /\ Zpos mf * 2 ^ (ef - e) <= B.
Proof.
  intros Hq He HB Hex Hmod. unfold binary_round_aux.
  destruct (Z_lt_le_dec (Zpos q) (2 ^ 53)) as [Hlt|Hge].
  - (* 53 bits: no shift *)
    assert (Hd : dig q = 53) by (apply dig_unique; lia).
    assert (Hs : shr_fexp prec emax (Zpos q) e l = (shr_record_of_loc (Zpos q) l, e)).
    { unfold shr_fexp. rewrite Zdigits2_pos, Hd. std_Z.
      rewrite (fexp_normal (53 + e)) by lia.
      replace (53 + e - 53 - e) with 0 by lia. reflexivity. }
    rewrite Hs. rewrite loc_of_record_of_loc.
    assert (Hm : shr_m (shr_record_of_loc (Zpos q) l) = Zpos q)
      by (destruct l as [|[| |]]; reflexivity).
    rewrite Hm.
    destruct (round_nearest_even_range (Zpos q) l) as [Hexact Hr].
    set (m2 := round_nearest_even (Zpos q) l) in *.
    assert (Hm2B : m2 <= B).
    { destruct (Z.eq_dec (Zpos q) B) as [E|E].
      - rewrite (Hexact (Hex E)). lia.
      - lia. }
    destruct m2 as [|p2|p2] eqn:Em2; try lia.
    destruct (round_final p2 e ltac:(lia) ltac:(lia)) as (mf & ef & Hfin & Hdf & Hcase).
    exists mf, ef. split; [exact Hfin|]. split; [exact Hdf|].
    destruct Hcase as [[-> ->]|(-> & H53 & H52)].
    + split; [lia|]. rewrite Z.sub_diag. simpl. lia.
    + split; [lia|]. replace (e + 1 - e) with 1 by lia. rewrite H52.
      change (2 ^ 52 * 2 ^ 1) with (2 ^ 53). lia.
  - (* 54 bits: one shift *)
    assert (Hd : dig q = 54) by (apply dig_unique; lia).
    assert (Hs : shr_fexp prec emax (Zpos q) e l
                 = (shr_1 (shr_record_of_loc (Zpos q) l), e + 1)).
    { unfold shr_fexp. rewrite Zdigits2_pos, Hd. std_Z.
      rewrite (fexp_normal (54 + e)) by lia.
      replace (54 + e - 53 - e) with 1 by lia. reflexivity. }
    rewrite Hs.
    set (rec1 := shr_1 (shr_record_of_loc (Zpos q) l)).
    assert (Hm1 : shr_m rec1 = Zpos q / 2).
    { unfold rec1. apply shr_m_shr_1_loc. lia. }
    destruct (mod4_even B Hmod) as [HB2 _].
    assert (Hloc1 : Zpos q = B -> loc_of_shr_record rec1 = loc_Exact).
    { intros E. unfold rec1. rewrite (Hex E), E, HB2.
      cbn [shr_record_of_loc]. rewrite shr_1_even; [reflexivity|].
      apply Z.div_pos; lia. }
    destruct (round_nearest_even_range (shr_m rec1) (loc_of_shr_record rec1))
      as [Hexact Hr].
    set (m2 := round_nearest_even (shr_m rec1) (loc_of_shr_record rec1)) in *.
    rewrite Hm1 in Hr.
    assert (Hq2 : 2 ^ 52 <= Zpos q / 2 < 2 ^ 53).
    { split.
      - apply Z.div_le_lower_bound; lia.
      - apply Z.div_lt_upper_bound; lia. }
    assert (Hm2B : m2 <= B / 2).
    { destruct (Z.eq_dec (Zpos q) B) as [E|E].
      - rewrite (Hexact (Hloc1 E)), Hm1, E. lia.
      - assert (Zpos q / 2 <= B / 2) by (apply Z.div_le_mono; lia).
        destruct (Z.eq_dec (Zpos q / 2) (B / 2)) as [E2|E2]; [|lia].
        exfalso.
        pose proof (Z.div_mod (Zpos q) 2 ltac:(lia)) as Hdm.
        pose proof (Z.mod_pos_bound (Zpos q) 2 ltac:(lia)).
        lia. }
    destruct m2 as [|p2|p2] eqn:Em2; try lia.
    destruct (round_final p2 (e + 1) ltac:(lia) ltac:(lia))
      as (mf & ef & Hfin & Hdf & Hcase).
    exists mf, ef. split; [exact Hfin|]. split; [exact Hdf|].
    destruct Hcase as [[-> ->]|(-> & H53 & H52)].
    + split; [lia|]. replace (e + 1 - e) with 1 by lia.
      change (2 ^ 1) with 2. lia.
    + split; [lia|]. replace (e + 1 + 1 - e) with 2 by lia. rewrite H52.
      change (2 ^ 52 * 2 ^ 2) with (2 * 2 ^ 53). lia.
Qed.

Lemma iter_xO_value (p q : positive) :
  Zpos (Pos.iter xO p q) = Zpos p * 2 ^ Zpos q.
Proof.
  induction q as [|q IH] using Pos.peano_ind.
  - simpl. lia.
  - rewrite Pos.iter_succ, Pos2Z.inj_xO, IH, Pos2Z.inj_succ, Z.pow_succ_r by lia.
    ring.
Qed.

(** An exact mantissa with [s] trailing zero bits is brought back to 53
    bits without loss. *)
Lemma binary_round_aux_shift (a P : positive) (s e : Z) :
  dig a = 53 -> 0 <= s -> -1074 <= e <= 971 ->
  Zpos P = Zpos a * 2 ^ s ->
  binary_round_aux prec emax false (Zpos P) (e - s) loc_Exact
  = S754_finite false a e.
Proof.
  intros Ha Hs He HP.
  assert (HdP : dig P = 53 + s).
  { rewrite <- Ha. apply dig_shift; assumption. }
  assert (H1 : shr_fexp prec emax (Zpos P) (e - s) loc_Exact
               = (Build_shr_record (Zpos a) false false, e)).
  { unfold shr_fexp. rewrite Zdigits2_pos, HdP. std_Z.
    rewrite (fexp_normal (53 + s + (e - s))) by lia.
    replace (53 + s + (e - s) - 53 - (e - s)) with s by lia.
    cbn [shr_record_of_loc]. rewrite HP, shr_exact by lia.
    f_equal. lia. }
  assert (H2 : shr_fexp prec emax (Zpos a) e loc_Exact
               = (Build_shr_record (Zpos a) false false, e)).
  { unfold shr_fexp. rewrite Zdigits2_pos, Ha. std_Z.
    rewrite (fexp_normal (53 + e)) by lia.
    replace (53 + e - 53 - e) with 0 by lia. reflexivity. }
  unfold binary_round_aux. rewrite H1.
  cbn [shr_m loc_of_shr_record round_nearest_even]. rewrite H2.
  cbn [shr_m]. std_Z.
  destruct (Z.leb_spec e (emax - prec)) as [H|H]; [reflexivity|].
  unfold emax, prec in H. lia.
Qed.

(** The canonical form of a positive integer below 2^53 as a double. *)
Lemma float_of_int_canonical (k : Z) :
  1 <= k < 2 ^ 53 ->
  exists m e,
    Prim2SF (float_of_int k) = S754_finite false m e /\
    dig m = 53 /\ -52 <= e <= 0 /\ Zpos m = k * 2 ^ (- e).
Proof.
  intros Hk. destruct k as [|p|p]; try lia. unfold float_of_int.
  rewrite of_uint63_spec, Uint63.of_Z_spec.
  rewrite Z.mod_small by (unfold Uint63.wB; simpl; lia).
  unfold binary_normalize, binary_round. std_Z.
  pose proof (dig_bounds p) as Hb.
  assert (Hd : 1 <= dig p <= 53).
  { split; [unfold dig; lia|].
    destruct (Z_lt_le_dec 53 (dig p)) as [Hgt|]; [|lia].
    assert (2 ^ 53 <= 2 ^ (dig p - 1)) by (apply Z.pow_le_mono_r; lia). lia. }
  fold (dig p). rewrite (fexp_normal (dig p + 0)) by lia.
  unfold shl_align. std_Z.
  destruct (dig p + 0 - 53 - 0) as [|q|q] eqn:E; try lia.
  - exists p, 0. split; [|split; [lia|split; [lia|simpl; lia]]].
    replace 0 with (0 - 0) at 1 by lia.
    apply binary_round_aux_shift; first [lia | simpl; lia].
  - exists (Pos.iter xO p q), (dig p - 53).
    assert (Hv : Zpos (Pos.iter xO p q) = Zpos p * 2 ^ (- (dig p - 53))).
    { rewrite iter_xO_value. f_equal. f_equal. lia. }
    assert (Hdm : dig (Pos.iter xO p q) = 53).
    { rewrite (dig_shift p (Zpos q) _ ltac:(lia) (iter_xO_value p q)). lia. }
    split; [|split; [exact Hdm|split; [lia|exact Hv]]].
    replace (dig p + 0 - 53) with (dig p - 53 - 0) by lia.
    apply binary_round_aux_shift; lia.
Qed.


(** A positive [int] converts to a finite positive double. *)
Lemma float_of_int_finite (n : Z) :
  1 <= n < 2 ^ 53 ->
  exists m e, Prim2SF (float_of_int n) = S754_finite false m e.
Proof.
  intros Hn. destruct (float_of_int_canonical n Hn) as (m & e & H & _).
  exists m, e. exact H.
Qed.

Lemma zero_div_int (n : Z) :
  1 <= n < 2 ^ 53 -> (0 / float_of_int n)%float = 0%float.
Proof.
  intros Hn. destruct (float_of_int_finite n Hn) as (m & e & H).
  apply Prim2SF_inj. rewrite FloatAxioms.div_spec, H. reflexivity.
Qed.

Lemma int_mul_zero (n : Z) :
  1 <= n < 2 ^ 53 -> (float_of_int n * 0)%float = 0%float.
Proof.
  intros Hn. destruct (float_of_int_finite n Hn) as (m & e & H).
  apply Prim2SF_inj. rewrite FloatAxioms.mul_spec, H. reflexivity.
Qed.

Lemma dig_range (p : positive) (lo hi : Z) :
  1 <= lo -> 2 ^ (lo - 1) <= Zpos p < 2 ^ hi -> lo <= dig p <= hi.
Proof.
  intros Hlo H. pose proof (dig_bounds p) as Hb.
  assert (Hd : 1 <= dig p) by (unfold dig; lia).
  split.
  - destruct (Z_lt_le_dec (dig p) lo) as [Hlt|]; [|lia].
    assert (2 ^ dig p <= 2 ^ (lo - 1)) by (apply Z.pow_le_mono_r; lia). lia.
  - destruct (Z_lt_le_dec hi (dig p)) as [Hgt|]; [|lia].
    assert (0 <= hi).
    { destruct (Z_lt_le_dec hi 0); [|lia]. rewrite (Z.pow_neg_r 2 hi) in H by lia. lia. }
    assert (2 ^ hi <= 2 ^ (dig p - 1)) by (apply Z.pow_le_mono_r; lia). lia.
Qed.

(** [50.0 * N_hit] is exact: the canonical form of 50 * h. *)
Lemma fifty_times_canonical (h : Z) :
  1 <= h < 2 ^ 31 ->
  exists m e,
    Prim2SF (float_of_int 50 * float_of_int h)%float = S754_finite false m e /\
    dig m = 53 /\ -52 <= e <= 0 /\ Zpos m = 50 * h * 2 ^ (- e).
Proof.
  intros Hh.
  destruct (float_of_int_canonical h ltac:(lia)) as (mh & eh & Hsf & Hdh & Heh & Hvh).
  rewrite FloatAxioms.mul_spec, Hsf.
  change (Prim2SF (float_of_int 50))
    with (S754_finite false 7036874417766400 (-47)).
  unfold SF64mul. cbn [SFmul xorb]. std_Z.
  destruct h as [|ph|ph]; try lia.
  set (c := (25 * ph)%positive).
  assert (Hc : Zpos c = 25 * Zpos ph) by reflexivity.
  assert (HD : 5 <= dig c <= 36).
  { apply dig_range; [lia|]. rewrite Hc. simpl in Hh |- *. lia. }
  pose proof (dig_bounds c) as Hbc.
  set (D := dig c) in *.
  assert (Hexa : exists a, Zpos a = Zpos c * 2 ^ (53 - D)).
  { exists (Z.to_pos (Zpos c * 2 ^ (53 - D))). apply Z2Pos.id.
    pose proof (pow2_pos (53 - D) ltac:(lia)). nia. }
  destruct Hexa as [a Ea].
  assert (Hda : dig a = 53).
  { replace 53 with (D + (53 - D)) by lia.
    apply dig_shift; [lia|exact Ea]. }
  exists a, (D - 52).
  split; [|split; [exact Hda|split; [lia|]]].
  - replace (-47 + eh) with (D - 52 - (D - 5 - eh)) by lia.
    apply binary_round_aux_shift; try lia.
    rewrite Pos2Z.inj_mul, Hvh, Ea, Hc.
    change (Zpos 7036874417766400) with (25 * 2 ^ 48).
    replace (D - 5 - eh) with ((48 - (53 - D)) + (- eh)) by lia.
    rewrite (Z.pow_add_r 2 (48 - (53 - D)) (- eh)) by lia.
    replace (2 ^ 48) with (2 ^ (53 - D) * 2 ^ (48 - (53 - D))).
    + ring.
    + rewrite <- Z.pow_add_r by lia. f_equal. lia.
  - rewrite Ea, Hc.
    replace (53 - D) with (1 + - (D - 52)) by lia.
    rewrite Z.pow_add_r by lia. change (2 ^ 1) with 2. ring.
Qed.

Lemma div_core_canonical (mx my : positive) (ex ey : Z) :
  dig mx = 53 -> dig my = 53 -> -52 <= ex <= 0 -> -52 <= ey <= 0 ->
  SFdiv_core_binary prec emax (Zpos mx) ex (Zpos my) ey =
  (fst (Z.div_eucl (Zpos mx * 2 ^ 53) (Zpos my)), ex - ey - 53,
   new_location (Zpos my) (snd (Z.div_eucl (Zpos mx * 2 ^ 53) (Zpos my)))).
Proof.
  intros Hx Hy Hex Hey. unfold SFdiv_core_binary.
  rewrite !Zdigits2_pos, Hx, Hy. std_Z.
  rewrite (fexp_normal (53 + ex - (53 + ey))) by lia.
  rewrite Z.min_l by lia.
  replace (ex - ey - (53 + ex - (53 + ey) - 53)) with 53 by lia.
  cbv iota. rewrite Z.shiftl_mul_pow2 by lia.
  destruct (Z.div_eucl (Zpos mx * 2 ^ 53) (Zpos my)) as [q r].
  cbn [fst snd]. f_equal. f_equal. lia.
Qed.

Lemma new_location_zero (n : Z) : new_location n 0 = loc_Exact.
Proof.
  unfold new_location, new_location_even, new_location_odd.
  destruct (Z.even n); reflexivity.
Qed.

Lemma compare_cont_le (p q : positive) :
  Zpos p <= Zpos q ->
  match Pos.compare_cont Eq p q with Lt | Eq => true | Gt => false end = true.
Proof.
  intros H. fold (Pos.compare p q).
  destruct (Pos.compare_spec p q) as [E|E|E]; try reflexivity. lia.
Qed.

(** In binary64, for [0 <= hits <= n] and [n >= 1] within [int], the value
    [50.0 * hits / n] lies between 0 and 50. *)
Lemma efficiency_binary64_bounds (h n : Z) :
  0 <= h <= n -> 1 <= n < 2 ^ 31 ->
  let e := (float_of_int 50 * float_of_int h / float_of_int n)%float in
  PrimFloat.leb 0%float e = true /\ PrimFloat.leb e (float_of_int 50) = true.
Proof.
  intros Hh Hn e.
  destruct (Z.eq_dec h 0) as [-> | Hh0].
  - unfold e. change (float_of_int 50 * float_of_int 0)%float with 0%float.
    rewrite zero_div_int by lia. split; reflexivity.
  - destruct (fifty_times_canonical h ltac:(lia))
      as (mx & ex & Hx & Hdx & Hex & Hvx).
    destruct (float_of_int_canonical n ltac:(lia))
      as (my & ey & Hy & Hdy & Hey & Hvy).
    assert (He : exists mf ef,
              Prim2SF e = S754_finite false mf ef /\ dig mf = 53 /\
              (ef < -47 \/ ef = -47 /\ Zpos mf <= 7036874417766400)).
    { unfold e. rewrite FloatAxioms.div_spec, Hx, Hy. unfold SF64div. cbn [SFdiv xorb].
      rewrite div_core_canonical by assumption.
      pose proof (Z_div_mod (Zpos mx * 2 ^ 53) (Zpos my) ltac:(lia)) as Hdm.
      destruct (Z.div_eucl (Zpos mx * 2 ^ 53) (Zpos my)) as [q r].
      cbn [fst snd]. destruct Hdm as [Hqr Hr].
      pose proof (dig_bounds mx) as Hbx. rewrite Hdx in Hbx.
      pose proof (dig_bounds my) as Hby. rewrite Hdy in Hby.
      change (2 ^ (53 - 1)) with (2 ^ 52) in *.
      assert (Hq : 2 ^ 52 <= q < 2 ^ 54).
      { change (2 ^ 54) with (2 * 2 ^ 53). change (2 ^ 53) with (2 * 2 ^ 52) in *.
        nia. }
      set (B := 100 * 2 ^ (52 - (ex - ey))).
      assert (Hp1 : 0 < 2 ^ (52 - (ex - ey))) by (apply pow2_pos; lia).
      assert (HB4 : B mod 4 = 0).
      { unfold B. replace (100 * 2 ^ (52 - (ex - ey)))
          with (25 * 2 ^ (52 - (ex - ey)) * 4) by ring.
        apply Z.mod_mul. lia. }
      assert (HBmy : Zpos mx * 2 ^ 53 <= B * Zpos my).
      { set (U := 2 ^ (52 - ex)).
        assert (HU : 0 < U) by (apply pow2_pos; lia).
        assert (E1 : 2 ^ (52 - (ex - ey)) * 2 ^ (- ey) = U).
        { unfold U. rewrite <- Z.pow_add_r by lia. f_equal. lia. }
        assert (E2 : 2 ^ (- ex) * 2 ^ 53 = 2 * U).
        { unfold U. rewrite <- Z.pow_add_r by lia.
          replace (- ex + 53) with (1 + (52 - ex)) by lia.
          rewrite Z.pow_add_r by lia. reflexivity. }
        rewrite Hvx, Hvy.
        replace (50 * h * 2 ^ (- ex) * 2 ^ 53)
          with (50 * h * (2 ^ (- ex) * 2 ^ 53)) by ring.
        rewrite E2.
        replace (B * (n * 2 ^ (- ey)))
          with (100 * n * (2 ^ (52 - (ex - ey)) * 2 ^ (- ey)))
          by (unfold B; ring).
        rewrite E1. nia. }
      assert (HqB : q <= B) by nia.
      assert (Hexact : q = B -> new_location (Zpos my) r = loc_Exact).
      { intros E. assert (r = 0) by nia. subst r. apply new_location_zero. }
      destruct q as [|pq|pq]; try lia.
      destruct (round_bound pq (ex - ey - 53) (new_location (Zpos my) r) B
                  Hq ltac:(lia) HqB Hexact HB4)
        as (mf & ef & Hfin & Hdf & Hef & Hval).
      exists mf, ef. split; [exact Hfin|]. split; [exact Hdf|].
      pose proof (dig_bounds mf) as Hbf. rewrite Hdf in Hbf.
      change (2 ^ (53 - 1)) with (2 ^ 52) in Hbf.
      set (a := 52 - (ex - ey)) in *.
      assert (Ha : 0 <= a <= 104) by (unfold a; lia).
      assert (Hk : ef - (ex - ey - 53) = ef + a + 1) by (unfold a; lia).
      rewrite Hk in Hval. unfold B in Hval.
      assert (Hefr : - a - 1 <= ef <= - a + 1) by (unfold a in *; lia).
      clearbody a. clear - Ha Hval Hbf Hefr.
      assert (Hlow : a <= ef + a + 1 + 45 -> False).
      { intros Hle.
        assert (Hpa : 2 ^ a <= 2 ^ (ef + a + 1 + 45))
          by (apply Z.pow_le_mono_r; lia).
        rewrite Z.pow_add_r in Hpa by lia.
        assert (Hk : ef + a + 1 = 0 \/ ef + a + 1 = 1 \/ ef + a + 1 = 2) by lia.
        destruct Hk as [Hk|[Hk|Hk]]; rewrite Hk in *; lia. }
      destruct (Z_lt_le_dec ef (-47)) as [Hlt|Hge]; [left; exact Hlt|].
      right. assert (Hef : ef = -47) by lia. split; [exact Hef|].
      subst ef.
      assert (Hk : a = 46 \/ a = 47 \/ a = 48) by lia.
      destruct Hk as [Hk|[Hk|Hk]]; rewrite Hk in *; lia. }
    destruct He as (mf & ef & Hsf & Hdf & Hcmp).
    split.
    + rewrite FloatAxioms.leb_spec, Hsf. reflexivity.
    + rewrite FloatAxioms.leb_spec, Hsf.
      change (Prim2SF (float_of_int 50))
        with (S754_finite false 7036874417766400 (-47)).
      unfold SFleb, SFcompare. std_Z.
      destruct Hcmp as [Hlt|[Heq Hle]].
      * rewrite (proj2 (Z.compare_lt_iff ef (-47)) Hlt). reflexivity.
      * rewrite Heq, Z.compare_refl. apply compare_cont_le. exact Hle.
Qed.

End Binary64.

(** C5, as the code has it, in binary64 and for every libm and <random>
    library.  An evaluation with [n >= 1] samples and zero hits returns the
    efficiency 0, and the driver's relative error for it is +infinity: both
    are values, the run goes on.  With [n = 0] (which has zero hits) the
    efficiency is 50 * 0 / 0, a NaN, and so is the relative error. *)
Theorem zero_hits (m : libm) (rnd : RandomLib float) (z source : float)
    (n seed : Z) (source_type : string) :
  (0 <= n <= 10 ^ 9)%Z ->
  @count_hits float (float_ops m) rnd z source n seed source_type = Ret 0%Z ->
  ((1 <= n)%Z ->
   @geom_eff_point float (float_ops m) rnd z source n seed source_type
     = Ret 0%float /\
   @rel_er float (float_ops m) n 0%float = Ret infinity) /\
  (n = 0%Z ->
   @geom_eff_point float (float_ops m) rnd z source n seed source_type
     = Ret nan /\
   @rel_er float (float_ops m) n nan = Ret nan).
Proof.
  intros Hn Hc. split.
  - intros H1. split.
    + unfold geom_eff_point. rewrite Hc. cbn [bind]. f_equal.
      cbn [ddiv dmul of_int float_ops].
      change (float_of_int 50 * float_of_int 0)%float with 0%float.
      apply zero_div_int. lia.
    + unfold rel_er, int_arith.
      rewrite in_int_true by (unfold INT_MIN, INT_MAX; lia).
      cbn [bind ddiv dmul of_int dsqrt float_ops]. f_equal.
      rewrite int_mul_zero by lia. reflexivity.
  - intros ->. split.
    + unfold geom_eff_point. rewrite Hc. reflexivity.
    + reflexivity.
Qed.

Lemma zero_hits_witness :
  @geom_eff_point float sample_float_ops sample_float_random
    3%float 0%float 10 15763027 "uniform" = Ret 0%float /\
  @rel_er float sample_float_ops 10 0%float = Ret infinity.
Proof.
  refine (proj1 (@zero_hits sample_libm sample_float_random
                   3%float 0%float 10 15763027 "uniform" _ _) _).
  - lia.
  - vm_compute. reflexivity.
  - lia.
Defined.

(** C5, as the spec words it, fails for [N = 0]: the efficiency returned is
    not 0 but a NaN, and the relative error the driver derives is a NaN too,
    not +infinity (here with [power = -1], which makes [n_perpoint] 0). *)
Lemma zero_samples_give_nan :
  (exists e,
     @geom_eff_point float sample_float_ops sample_float_random
       3%float 0%float 0 15763027 "uniform" = Ret e /\
     PrimFloat.is_nan e = true) /\
  (exists r,
     @main float sample_float_ops sample_float_random
       ["Isotropic_emission"; "uniform"; "circular"]%string
       (Inputs 0%float 5%float 2 0%float (-1) 1%float "out.txt") = Ret r /\
     map call_n (run_calls r) = [0; 0]%Z /\
     map (fun row => (PrimFloat.is_nan (snd (fst row)),
                      PrimFloat.is_nan (snd row))) (snd (run_file r))
       = [(true, true); (true, true)]).
Proof.
  split; eexists; (split; [vm_compute; reflexivity|]); repeat split.
Qed.

Section ClaimsSampler.

Context {D : Type} {ops : DoubleOps D} {rnd : RandomLib D}.

(** The draws of a sampler come in a fixed order: a shorter batch is the
    beginning of a longer one. *)
Lemma draw_points_firstn {G : Type} (draw : G -> (D * D) * G) (m : nat) :
  forall n g, (m <= n)%nat ->
    firstn m (draw_points draw g n) = draw_points draw g m.
Proof.
  induction m as [|m IH]; intros n g H; [reflexivity|].
  destruct n as [|n]; [lia|]. simpl.
  destruct (draw g) as [pt g']. simpl. f_equal. apply IH. lia.
Qed.

Lemma fill_same_size {G : Type} (draw : G -> (D * D) * G) (g : G)
    (p q : position) :
  length (pos_x p) = length (pos_y p) ->
  length (pos_x q) = length (pos_y q) ->
  length (pos_x p) = length (pos_x q) ->
  fill draw g p = fill draw g q.
Proof.
  intros Hp Hq Hpq. destruct p as [px py], q as [qx qy]. simpl in *.
  rewrite !fill_spec by assumption. rewrite Hpq. reflexivity.
Qed.

(** C6.  The estimator is deterministic.  A call of the estimator returns
    the same outcome whatever calls came before it (the log), namely the
    value of [geom_eff_point] at its arguments, and the relative error the
    driver derives from it is the same too; a generator called with the
    same parameter and seed on two batches of the same size leaves the same
    points, whatever the batches held; and the draws come in a fixed order, a
    batch of [m <= n] points being the first [m] points of the batch of [n]
    for the same seed. *)
Theorem estimator_deterministic (c : call) (log1 log2 : list call)
    (p q : position) (r z : D) (s : Z) (source_type : string) (m n : nat) :
  length (pos_x p) = length (pos_y p) ->
  length (pos_x q) = length (pos_y q) ->
  length (pos_x p) = length (pos_x q) ->
  (m <= n)%nat ->
  (outcome_map fst (evaluate c log1) = outcome_map fst (evaluate c log2) /\
   outcome_map fst (evaluate c log1) =
     geom_eff_point (call_z c) (call_source c) (call_n c) (call_seed c)
                    (call_type c) /\
   (e <- outcome_map fst (evaluate c log1) ;; rel_er (call_n c) e) =
   (e <- outcome_map fst (evaluate c log2) ;; rel_er (call_n c) e)) /\
  (generate_circular_distr p r s = generate_circular_distr q r s /\
   generate_gaussian_distr p r s = generate_gaussian_distr q r s /\
   generate_isotropic p z s = generate_isotropic q z s) /\
  (firstn m (source_points source_type r s n) = source_points source_type r s m /\
   firstn m (emission_points z s n) = emission_points z s m).
Proof.
  intros Hp Hq Hpq Hmn. split; [|split].
  - assert (H : forall log, outcome_map fst (evaluate c log) =
       geom_eff_point (call_z c) (call_source c) (call_n c) (call_seed c)
                      (call_type c)).
    { intros log. unfold evaluate.
      destruct (geom_eff_point _ _ _ _ _); reflexivity. }
    rewrite !H. repeat split; reflexivity.
  - repeat split; apply fill_same_size; assumption.
  - split.
    + unfold source_points.
      destruct (source_type =? "uniform")%string;
        apply draw_points_firstn; exact Hmn.
    + apply draw_points_firstn. exact Hmn.
Qed.

(** C7.  [add_vec] on a batch and two offset vectors (each pair of equal
    length, sizes within [int]): when the sizes agree the offsets are added
    elementwise to the batch; when they differ the call ends the program
    with the size error message, so that nothing after it in the evaluation
    runs. *)
Theorem add_vec_checked (p : position) (dx dy : list D) :
  length (pos_x p) = length (pos_y p) ->
  length dx = length dy ->
  (Z.of_nat (length (pos_x p)) <= INT_MAX)%Z ->
  (Z.of_nat (length dx) <= INT_MAX)%Z ->
  (length dx = length (pos_x p) ->
   add_vec p dx dy = Ret (Position (vadd (pos_x p) dx) (vadd (pos_y p) dy)) /\
   length (vadd (pos_x p) dx) = length (pos_x p) /\
   length (vadd (pos_y p) dy) = length (pos_x p) /\
   forall i a b a' b',
     nth_error (pos_x p) i = Some a -> nth_error dx i = Some a' ->
     nth_error (pos_y p) i = Some b -> nth_error dy i = Some b' ->
     nth_error (vadd (pos_x p) dx) i = Some (dadd a a') /\
     nth_error (vadd (pos_y p) dy) i = Some (dadd b b')) /\
  (length dx <> length (pos_x p) ->
   add_vec p dx dy = Exit "ERROR: vector addtion with different size vectors" /\
   forall (k : position -> outcome D),
     (r <- add_vec p dx dy ;; k r)
     = Exit "ERROR: vector addtion with different size vectors").
Proof.
  intros Hxy Hd Hx Hdx. split.
  - intros Heq. destruct p as [x y]. simpl in *. split; [|split; [|split]].
    + apply add_vec_spec; congruence.
    + apply vadd_length. congruence.
    + rewrite vadd_length; congruence.
    + intros i a b a' b' Ha Ha' Hb Hb'. split; apply vadd_nth; assumption.
  - intros Hne.
    assert (H : add_vec p dx dy =
                Exit "ERROR: vector addtion with different size vectors").
    { apply add_vec_mismatch; try assumption. congruence. }
    split; [exact H|]. intros k. rewrite H. reflexivity.
Qed.

End ClaimsSampler.

Lemma estimator_deterministic_witness :
  @generate_circular_distr float sample_float_ops sample_float_random
    (Position [0%float; 0%float] [0%float; 0%float]) 2%float 15763027 =
  @generate_circular_distr float sample_float_ops sample_float_random
    (Position [7%float; 8%float] [9%float; 1%float]) 2%float 15763027.
Proof.
  refine (proj1 (proj1 (proj2 (@estimator_deterministic float sample_float_ops
    sample_float_random (Call 1%float 0%float 10 15763027 "uniform") [] []
    (Position [0%float; 0%float] [0%float; 0%float])
    (Position [7%float; 8%float] [9%float; 1%float])
    2%float 1%float 15763027 "uniform" 1 2 _ _ _ _)))).
  - reflexivity.
  - reflexivity.
  - reflexivity.
  - lia.
Defined.

Lemma add_vec_checked_witness :
  @add_vec float sample_float_ops
    (Position [1%float; 2%float] [3%float; 4%float])
    [0.5%float; 0.25%float] [1%float; 1%float]
  = Ret (Position [1.5%float; 2.25%float] [4%float; 5%float]) /\
  @add_vec float sample_float_ops
    (Position [1%float; 2%float] [3%float; 4%float])
    [0.5%float] [1%float]
  = Exit "ERROR: vector addtion with different size vectors".
Proof.
  split.
  - refine (proj1 (proj1 (@add_vec_checked float sample_float_ops
      (Position [1%float; 2%float] [3%float; 4%float])
      [0.5%float; 0.25%float] [1%float; 1%float] _ _ _ _) _)).
    + reflexivity.
    + reflexivity.
    + simpl. unfold INT_MAX. lia.
    + simpl. unfold INT_MAX. lia.
    + reflexivity.
  - refine (proj1 (proj2 (@add_vec_checked float sample_float_ops
      (Position [1%float; 2%float] [3%float; 4%float])
      [0.5%float] [1%float] _ _ _ _) _)).
    + reflexivity.
    + reflexivity.
    + simpl. unfold INT_MAX. lia.
    + simpl. unfold INT_MAX. lia.
    + simpl. lia.
Defined.

(** ** The real-number reading *)

Section ClaimsReal.

Context {rnd : RandomLib R}.

Open Scope R_scope.

Lemma Rpow_2 (a : R) : Rpow a 2 = a * a.
Proof.
  unfold Rpow.
  assert (H : Int_part 2 = 2%Z).
  { symmetry. apply Int_part_spec. lra. }
  rewrite H. destruct (Req_dec_T 2 2) as [_|Hne]; [|exfalso; apply Hne; reflexivity].
  simpl. lra.
Qed.

Lemma point_source_value_real (z : R) :
  @point_source_value R R_ops z = 50 - 50 * z / R_sqrt.sqrt (1 + z * z).
Proof.
  unfold point_source_value. cbn [dsub ddiv dmul dadd dsqrt dpow of_int R_ops].
  rewrite Rpow_2. reflexivity.
Qed.

Lemma sqrt_one_plus_square (z : R) :
  0 < R_sqrt.sqrt (1 + z * z) /\ R_sqrt.sqrt (1 + z * z) * R_sqrt.sqrt (1 + z * z) = 1 + z * z.
Proof.
  assert (H : 0 < 1 + z * z) by nra.
  split; [apply sqrt_lt_R0; exact H | apply sqrt_sqrt; lra].
Qed.

Lemma ratio_increasing (a b : R) :
  0 <= a < b -> a / R_sqrt.sqrt (1 + a * a) < b / R_sqrt.sqrt (1 + b * b).
Proof.
  intros Hab.
  destruct (sqrt_one_plus_square a) as [Ha Ha2].
  destruct (sqrt_one_plus_square b) as [Hb Hb2].
  set (sa := R_sqrt.sqrt (1 + a * a)) in *. set (sb := R_sqrt.sqrt (1 + b * b)) in *.
  assert (Hx : a * sb < b * sa).
  { assert (H0 : 0 <= a * sb) by nra.
    assert (H1 : 0 < b * sa) by nra.
    assert (H2 : (a * sb) * (a * sb) < (b * sa) * (b * sa)).
    { replace ((a * sb) * (a * sb)) with (a * a * (sb * sb)) by ring.
      replace ((b * sa) * (b * sa)) with (b * b * (sa * sa)) by ring.
      rewrite Ha2, Hb2. nra. }
    nra. }
  apply Rmult_lt_reg_r with (r := sa * sb); [nra|].
  replace (a / sa * (sa * sb)) with (a * sb) by (field; lra).
  replace (b / sb * (sa * sb)) with (b * sa) by (field; lra).
  exact Hx.
Qed.

(** C8, as the code has it.  [point_source] maps every distance z of its
    input to 50 - 50 * z / sqrt(1 + z^2); the value at 0 is 50 (in real
    arithmetic, and exactly so in binary64 for a libm whose [pow(0, 2)] is 0);
    in real arithmetic the value is strictly decreasing over z >= 0.  The
    binary64 values are not strictly decreasing: for a libm that squares
    1e8 and 1e9 exactly, the value computed at both is 0. *)
Theorem point_source_approximation (z : list R) (a b : R) :
  (Z.of_nat (length z) <= INT_MAX)%Z ->
  0 <= a < b ->
  @point_source R R_ops z =
    Ret (map (fun zi => 50 - 50 * zi / R_sqrt.sqrt (1 + zi * zi)) z) /\
  @point_source_value R R_ops 0 = 50 /\
  @point_source_value R R_ops b < @point_source_value R R_ops a /\
  (forall m : libm, m_pow m 0%float 2%float = 0%float ->
     @point_source_value float (float_ops m) 0%float = 50%float) /\
  (forall m : libm,
     m_pow m 1e8%float 2%float = 1e16%float ->
     m_pow m 1e9%float 2%float = 1e18%float ->
     @point_source_value float (float_ops m) 1e8%float = 0%float /\
     @point_source_value float (float_ops m) 1e9%float = 0%float).
Proof.
  intros Hz Hab. split; [|split; [|split; [|split]]].
  - rewrite point_source_spec by exact Hz. f_equal.
    apply map_ext. intros zi. apply point_source_value_real.
  - rewrite point_source_value_real.
    replace (1 + 0 * 0) with 1 by ring. rewrite sqrt_1. lra.
  - rewrite !point_source_value_real.
    pose proof (ratio_increasing a b Hab) as H.
    unfold Rdiv in *. nra.
  - intros m Hm. unfold point_source_value.
    cbn [dsub ddiv dmul dadd dsqrt dpow of_int float_ops].
    change (float_of_int 2) with 2%float.
    change (float_of_int 50) with 50%float.
    change (float_of_int 1) with 1%float.
    rewrite Hm. reflexivity.
  - intros m H8 H9. unfold point_source_value.
    cbn [dsub ddiv dmul dadd dsqrt dpow of_int float_ops].
    change (float_of_int 2) with 2%float.
    change (float_of_int 50) with 50%float.
    change (float_of_int 1) with 1%float.
    rewrite H8, H9. split; reflexivity.
Qed.

Lemma combine_fst_snd {A B : Type} (l : list (A * B)) :
  combine (map fst l) (map snd l) = l.
Proof.
  induction l as [|[a b] l IH]; simpl; [reflexivity|]. f_equal. exact IH.
Qed.

Lemma circular_draw_in_disc (r : R) (g : engine) :
  (forall g', 0 <= fst (uniform_real_distribution (IZR 0) (IZR 1) g') <= 1) ->
  let pt := fst (@circular_draw R R_ops rnd r g) in
  fst pt * fst pt + snd pt * snd pt <= r * r.
Proof.
  intros Hu pt. subst pt. unfold circular_draw.
  cbn [of_int dmul dsqrt dcos dsin R_ops].
  destruct (uniform_real_distribution _ _ g) as [phi g1].
  specialize (Hu g1).
  destruct (uniform_real_distribution (IZR 0) (IZR 1) g1) as [u g2].
  cbn [fst snd] in *.
  pose proof (sin2_cos2 phi) as Hsc. unfold Rsqr in Hsc.
  pose proof (sqrt_sqrt u (proj1 Hu)) as Hs.
  replace (r * R_sqrt.sqrt u * cos phi * (r * R_sqrt.sqrt u * cos phi)
           + r * R_sqrt.sqrt u * sin phi * (r * R_sqrt.sqrt u * sin phi))
    with (r * r * (R_sqrt.sqrt u * R_sqrt.sqrt u) * (sin phi * sin phi + cos phi * cos phi))
    by ring.
  rewrite Hs, Hsc. nra.
Qed.

Lemma circular_points_in_disc (r : R) (n : nat) :
  (forall g', 0 <= fst (uniform_real_distribution (IZR 0) (IZR 1) g') <= 1) ->
  forall g,
    Forall (fun pt => fst pt * fst pt + snd pt * snd pt <= r * r)
           (draw_points (@circular_draw R R_ops rnd r) g n).
Proof.
  intros Hu. induction n as [|n IH]; intros g; simpl; [constructor|].
  pose proof (circular_draw_in_disc r g Hu) as H. simpl in H.
  destruct (circular_draw r g) as [pt g']. constructor; [exact H | apply IH].
Qed.

(** C9.  In real arithmetic, for every radius [r] (non-negative or not),
    every seed and every batch, when the unit uniform distribution draws in
    [0, 1], [generate_circular_distr] fills the batch with as many points as
    it has room for, each within the disc: x*x + y*y <= r*r. *)
Theorem circular_points_inside (r : R) (seed : Z) (x y : list R) :
  length x = length y ->
  (forall g, 0 <= fst (uniform_real_distribution (IZR 0) (IZR 1) g) <= 1) ->
  exists p,
    @generate_circular_distr R R_ops rnd (Position x y) r seed = Ret p /\
    length (pos_x p) = length x /\ length (pos_y p) = length x /\
    Forall (fun pt => fst pt * fst pt + snd pt * snd pt <= r * r)
           (combine (pos_x p) (pos_y p)).
Proof.
  intros Hxy Hu. eexists. split.
  { unfold generate_circular_distr. apply fill_spec. exact Hxy. }
  cbn [pos_x pos_y]. rewrite !length_map, draw_points_length.
  split; [reflexivity|]. split; [reflexivity|].
  rewrite combine_fst_snd. apply circular_points_in_disc. exact Hu.
Qed.

(** C10.  For [n >= 1] samples, a seed that can be incremented and a
    recognised source type, the evaluation returns, its hit count lies between
    0 and [n], and the value returned is 50 * hits / n, which lies in the
    closed interval [0, 50]: in binary64, for every libm and <random> library
    (the product 50 * hits is exact and the rounded quotient cannot pass 50),
    and in real arithmetic. *)
Theorem efficiency_bounds (m : libm) (rndf : RandomLib float)
    (zf sourcef : float) (zr sourcer : R) (n seed : Z) (source_type : string) :
  (1 <= n <= INT_MAX)%Z ->
  (INT_MIN <= seed < INT_MAX)%Z ->
  valid_source source_type = true ->
  (exists (hits : Z) (e : float),
     @count_hits float (float_ops m) rndf zf sourcef n seed source_type
       = Ret hits /\
     (0 <= hits <= n)%Z /\
     @geom_eff_point float (float_ops m) rndf zf sourcef n seed source_type
       = Ret e /\
     e = (50 * float_of_int hits / float_of_int n)%float /\
     PrimFloat.leb 0%float e = true /\ PrimFloat.leb e 50%float = true) /\
  (exists (hits : Z) (e : R),
     @count_hits R R_ops rnd zr sourcer n seed source_type = Ret hits /\
     (0 <= hits <= n)%Z /\
     @geom_eff_point R R_ops rnd zr sourcer n seed source_type = Ret e /\
     e = 50 * IZR hits / IZR n /\
     0 <= e <= 50).
Proof.
  intros Hn Hs Hty.
  assert (Hcount : forall (E : Type) (o : DoubleOps E) (r : RandomLib E)
            (pts : list (E * E)),
            length pts = Z.to_nat n -> (0 <= hit_count pts <= n)%Z).
  { intros E o r pts Hl. pose proof (hit_count_bounds pts) as H.
    rewrite Hl in H. lia. }
  split.
  - set (pts := @landing_points float (float_ops m) rndf zf sourcef n seed
                  source_type).
    set (hits := @hit_count float (float_ops m) pts).
    assert (Hb : (0 <= hits <= n)%Z).
    { apply Hcount; [exact rndf | apply landing_points_length]. }
    exists hits, (50 * float_of_int hits / float_of_int n)%float.
    split; [apply count_hits_spec; (assumption || lia)|].
    split; [exact Hb|].
    split.
    { rewrite geom_eff_point_spec by (assumption || lia). reflexivity. }
    split; [reflexivity|].
    apply (efficiency_binary64_bounds hits n Hb).
    unfold INT_MAX in Hn. lia.
  - set (pts := @landing_points R R_ops rnd zr sourcer n seed source_type).
    assert (Hb : (0 <= hit_count pts <= n)%Z).
    { apply Hcount; [exact rnd | apply landing_points_length]. }
    exists (hit_count pts), (50 * IZR (hit_count pts) / IZR n).
    split; [apply count_hits_spec; (assumption || lia)|].
    split; [exact Hb|].
    split.
    { rewrite geom_eff_point_spec by (assumption || lia). reflexivity. }
    split; [reflexivity|].
    assert (Hn0 : 0 < IZR n) by (apply IZR_lt; lia).
    assert (Hh0 : 0 <= IZR (hit_count pts)) by (apply IZR_le; lia).
    assert (Hhn : IZR (hit_count pts) <= IZR n) by (apply IZR_le; lia).
    split.
    + apply Rmult_le_pos; [nra|]. left. apply Rinv_0_lt_compat. exact Hn0.
    + apply Rmult_le_reg_r with (r := IZR n); [exact Hn0|].
      replace (50 * IZR (hit_count pts) / IZR n * IZR n)
        with (50 * IZR (hit_count pts)) by (field; lra).
      nra.
Qed.

End ClaimsReal.

Lemma sample_uniform_unit (g : Z) :
  (0 <= fst (@sample_uniform R R_ops (IZR 0) (IZR 1) g) <= 1)%R.
Proof.
  unfold sample_uniform. cbn [fst dadd dmul dsub ddiv of_int R_ops].
  assert (Hm : (0 <= minstd_next g < minstd_modulus)%Z).
  { unfold minstd_next. apply Z.mod_pos_bound. reflexivity. }
  assert (H0 : (0 <= IZR (minstd_next g))%R) by (apply IZR_le; lia).
  assert (H1 : (IZR (minstd_next g) <= IZR minstd_modulus)%R)
    by (apply IZR_le; lia).
  assert (Hp : (0 < IZR minstd_modulus)%R) by (apply IZR_lt; reflexivity).
  assert (Hq : (0 <= IZR (minstd_next g) / IZR minstd_modulus <= 1)%R).
  { split.
    - apply Rmult_le_pos; [exact H0|]. left. apply Rinv_0_lt_compat, Hp.
    - apply Rmult_le_reg_r with (r := IZR minstd_modulus); [exact Hp|].
      replace (IZR (minstd_next g) / IZR minstd_modulus * IZR minstd_modulus)%R
        with (IZR (minstd_next g)) by (field; lra).
      lra. }
  lra.
Qed.

Lemma point_source_approximation_witness :
  (@point_source_value R R_ops 1%R < @point_source_value R R_ops 0%R)%R /\
  @point_source_value R R_ops 0%R = 50%R.
Proof.
  destruct (point_source_approximation [0%R; 1%R] 0%R 1%R) as (_ & H0 & Hlt & _).
  - simpl. unfold INT_MAX. lia.
  - lra.
  - split; assumption.
Defined.

(** C8, as the spec words it, fails on the binary64 values: from 1e8 to 1e9
    the value computed does not decrease, it is 0 at both (1 + 1e16 rounds to
    1e16, whose square root is 1e8, and 50 - 5e9 / 1e8 is 0). *)
Lemma point_source_not_strict_in_binary64 :
  @point_source float sample_float_ops [1e8%float; 1e9%float]
    = Ret [0%float; 0%float] /\
  PrimFloat.ltb (@point_source_value float sample_float_ops 1e9%float)
                (@point_source_value float sample_float_ops 1e8%float) = false /\
  PrimFloat.ltb 1e8%float 1e9%float = true.
Proof. repeat split; vm_compute; reflexivity. Qed.

Lemma circular_points_inside_witness :
  exists p,
    @generate_circular_distr R R_ops sample_real_random
      (Position [0%R; 0%R; 0%R] [0%R; 0%R; 0%R]) 2%R 15763027 = Ret p /\
    length (pos_x p) = 3%nat /\ length (pos_y p) = 3%nat /\
    Forall (fun pt => (fst pt * fst pt + snd pt * snd pt <= 2 * 2)%R)
           (combine (pos_x p) (pos_y p)).
Proof.
  refine (@circular_points_inside sample_real_random 2%R 15763027
            [0%R; 0%R; 0%R] [0%R; 0%R; 0%R] _ _).
  - reflexivity.
  - exact sample_uniform_unit.
Defined.

Lemma efficiency_bounds_witness :
  (exists (hits : Z) (e : float),
     @count_hits float sample_float_ops sample_float_random
       1%float 0%float 10 15763027 "uniform" = Ret hits /\
     (0 <= hits <= 10)%Z /\
     @geom_eff_point float sample_float_ops sample_float_random
       1%float 0%float 10 15763027 "uniform" = Ret e /\
     e = (50 * float_of_int hits / 10)%float /\
     PrimFloat.leb 0%float e = true /\ PrimFloat.leb e 50%float = true) /\
  (exists (hits : Z) (e : R),
     @count_hits R R_ops sample_real_random 1%R 0%R 10 15763027 "uniform"
       = Ret hits /\
     (0 <= hits <= 10)%Z /\
     @geom_eff_point R R_ops sample_real_random 1%R 0%R 10 15763027 "uniform"
       = Ret e /\
     e = (50 * IZR hits / IZR 10)%R /\
     (0 <= e <= 50)%R).
Proof.
  refine (@efficiency_bounds sample_real_random sample_libm
            sample_float_random 1%float 0%float 1%R 0%R 10 15763027
            "uniform" _ _ _).
  - unfold INT_MAX. lia.
  - unfold INT_MIN, INT_MAX. lia.
  - reflexivity.
Defined.

(** * Further properties

    Edge cases and consequences that the code shows beyond the claims:
    batches of unequal sizes, the ways an evaluation and a run can fail, the
    agreement of the two tables of a run, and facts of the real and of the
    binary64 reading. *)

(** ** Batches of any sizes *)

Section EdgeFacts.

Context {D : Type} {ops : DoubleOps D} {rnd : RandomLib D}.

(** A loop whose body runs into undefined behaviour at index [j], after
    iterations that keep an invariant, is undefined as a whole. *)
Lemma for_loop_stuck {S : Type} (P : nat -> S -> Prop)
    (body : nat -> S -> outcome S) (j : nat) :
  forall count i s,
    P i s -> (i <= j < i + count)%nat ->
    (forall k t, (i <= k < j)%nat -> P k t ->
       exists t', body k t = Ret t' /\ P (Datatypes.S k) t') ->
    (forall t, P j t -> body j t = Undefined) ->
    for_loop count i body s = Undefined.
Proof.
  induction count as [|c IH]; intros i s Hs Hj Hstep Hfail; [lia|].
  simpl. destruct (Nat.eq_dec i j) as [->|Hne].
  - rewrite (Hfail s Hs). reflexivity.
  - destruct (Hstep i s ltac:(lia) Hs) as (t' & Hb & Ht').
    rewrite Hb. simpl. apply IH; try assumption; try lia.
    intros k t Hk. apply Hstep. lia.
Qed.

Lemma vset_out (v : list D) (i : nat) (a : D) :
  (length v <= i)%nat -> vset v i a = Undefined.
Proof.
  intros H. unfold vset. destruct (Nat.ltb_spec i (length v)); [lia|reflexivity].
Qed.

Lemma vget_out (v : list D) (i : nat) :
  (length v <= i)%nat -> vget v i = Undefined.
Proof.
  intros H. unfold vget. apply nth_error_None in H. rewrite H. reflexivity.
Qed.

Lemma vget_in (v : list D) (i : nat) :
  (i < length v)%nat -> exists a, vget v i = Ret a.
Proof.
  intros H. destruct (nth_error v i) as [a|] eqn:E.
  - exists a. apply vget_ok. exact E.
  - apply nth_error_None in E. lia.
Qed.

(** A generator loop on a batch whose y vector is shorter than its x vector
    writes past the end of y. *)
Lemma fill_short_y {G : Type} (draw : G -> (D * D) * G) (g0 : G)
    (x y : list D) :
  (length y < length x)%nat ->
  fill draw g0 (Position x y) = Undefined.
Proof.
  intros Hlt. unfold fill. simpl pos_x.
  rewrite (for_loop_stuck
             (fun _ (s : G * position) =>
                length (pos_x (snd s)) = length x /\
                length (pos_y (snd s)) = length y)
             (fill_body draw) (length y)); [reflexivity| | | |].
  - simpl. auto.
  - lia.
  - intros k [g [px py]] Hk [Hx Hy]. simpl in *. unfold fill_body.
    destruct (draw g) as [[xv yv] g'].
    rewrite !vset_ok by lia. simpl. eexists. split; [reflexivity|].
    simpl. rewrite !upd_length. auto.
  - intros [g [px py]] [Hx Hy]. simpl in *. unfold fill_body.
    destruct (draw g) as [[xv yv] g'].
    rewrite vset_ok by lia. simpl. rewrite vset_out by lia. reflexivity.
Qed.

(** With a y vector at least as long as the x vector, the generator loop
    fills the first [length x] entries of both and leaves the rest of y. *)
Lemma fill_general {G : Type} (draw : G -> (D * D) * G) (g0 : G)
    (x y : list D) :
  (length x <= length y)%nat ->
  fill draw g0 (Position x y) =
  Ret (Position (map fst (draw_points draw g0 (length x)))
                (map snd (draw_points draw g0 (length x))
                 ++ skipn (length x) y)).
Proof.
  intros Hle.
  rewrite <- (firstn_skipn (length x) y) at 1.
  set (y1 := firstn (length x) y). set (y2 := skipn (length x) y).
  assert (Hy1 : length y1 = length x).
  { unfold y1. rewrite length_firstn. lia. }
  (* the loop on the longer y behaves as on its first part *)
  unfold fill. simpl pos_x.
  set (n := length x) in *.
  set (pts := draw_points draw g0 n).
  assert (Hpts : length pts = n) by apply draw_points_length.
  destruct (for_loop_inv
              (fun j (s : G * position) =>
                 length (pos_x (snd s)) = n /\
                 length (pos_y (snd s)) = (n + length y2)%nat /\
                 (forall k, nth_error (pos_x (snd s)) k =
                    if (k <? j)%nat then nth_error (map fst pts) k
                    else nth_error x k) /\
                 (forall k, nth_error (pos_y (snd s)) k =
                    if (k <? j)%nat then nth_error (map snd pts ++ y2) k
                    else nth_error (y1 ++ y2) k) /\
                 skipn j pts = draw_points draw (fst s) (n - j))
              (fill_body draw) n 0 (g0, Position x (y1 ++ y2)))
    as (s & Hs & Hlx & Hly & Hkx & Hky & _).
  - simpl. rewrite Nat.sub_0_r, length_app. repeat split; auto; lia.
  - intros j [g [px py]] Hj (Hlx & Hly & Hkx & Hky & Hg). simpl in *.
    destruct (n - j)%nat as [|m] eqn:Em; [lia|]. simpl in Hg.
    unfold fill_body.
    destruct (draw g) as [[xv yv] g'] eqn:Ed.
    apply skipn_cons_nth in Hg. destruct Hg as [Hnth Hskip].
    exists (g', Position (upd j xv px) (upd j yv py)). split.
    + rewrite !vset_ok by lia. reflexivity.
    + simpl. rewrite !upd_length. repeat split; try assumption.
      * apply inplace_step; [lia | | exact Hkx].
        rewrite nth_error_map, Hnth. reflexivity.
      * apply inplace_step; [lia | | exact Hky].
        rewrite nth_error_app1 by (rewrite length_map; lia).
        rewrite nth_error_map, Hnth. reflexivity.
      * change (skipn (Datatypes.S j) pts = draw_points draw g' (n - Datatypes.S j)).
        rewrite Hskip. f_equal. lia.
  - rewrite Hs. simpl. destruct s as [g [px py]]. simpl in *. f_equal. f_equal.
    + apply inplace_final with (v0 := x) (n := n); auto.
      rewrite length_map. exact Hpts.
    + apply nth_error_ext. intros k. rewrite Hky.
      destruct (Nat.ltb_spec k n); [reflexivity|].
      rewrite (nth_error_app2 y1 y2) by lia.
      rewrite (nth_error_app2 (map snd pts) y2) by (rewrite length_map; lia).
      rewrite length_map, Hpts, Hy1. reflexivity.
Qed.

(** X2.  [add_vec] tests the sizes of the x vectors only.  When they agree
    but the batch's y vector or the y offsets are shorter, the loop reads
    out of range. *)
Theorem add_vec_unchecked_y (x y dx dy : list D) :
  length dx = length x ->
  (Z.of_nat (length x) <= INT_MAX)%Z ->
  (length y < length x \/ length dy < length x)%nat ->
  add_vec (Position x y) dx dy = Undefined.
Proof.
  intros Hdx Hmax Hshort. unfold add_vec. simpl pos_x.
  rewrite !size_int_ok by lia. rewrite Hdx, Z.eqb_refl. simpl negb. cbv iota.
  rewrite Nat2Z.id.
  apply (for_loop_stuck
           (fun _ p => length (pos_x p) = length x /\
                       length (pos_y p) = length y)
           (add_vec_body dx dy) (Nat.min (length y) (length dy))).
  - simpl. auto.
  - lia.
  - intros k [px py] Hk [Hx Hy]. simpl in *. unfold add_vec_body. simpl.
    destruct (vget_in px k ltac:(lia)) as [a Ha].
    destruct (vget_in dx k ltac:(lia)) as [b Hb].
    destruct (vget_in py k ltac:(lia)) as [c Hc].
    destruct (vget_in dy k ltac:(lia)) as [d Hd].
    rewrite Ha, Hb. simpl. rewrite vset_ok by lia. simpl.
    rewrite Hc, Hd. simpl. rewrite vset_ok by lia. simpl.
    eexists. split; [reflexivity|]. simpl. rewrite !upd_length. auto.
  - intros [px py] [Hx Hy]. simpl in *. unfold add_vec_body. simpl.
    destruct (vget_in px (Nat.min (length y) (length dy)) ltac:(lia)) as [a Ha].
    destruct (vget_in dx (Nat.min (length y) (length dy)) ltac:(lia)) as [b Hb].
    rewrite Ha, Hb. simpl. rewrite vset_ok by lia. simpl.
    destruct (Nat.le_gt_cases (length y) (length dy)) as [Hle|Hgt].
    + rewrite (vget_out py) by lia. reflexivity.
    + destruct (vget_in py (Nat.min (length y) (length dy)) ltac:(lia)) as [c Hc].
      rewrite Hc. simpl. rewrite (vget_out dy) by lia. reflexivity.
Qed.

Lemma rsq_seq (d : D) (x : list D) :
  forall y, (length x <= length y)%nat ->
    map (fun i => squared_radius (nth i x d, nth i y d)) (seq 0 (length x))
    = map squared_radius (combine x y).
Proof.
  induction x as [|a x IH]; intros y Hle; [reflexivity|].
  destruct y as [|b y]; [simpl in Hle; lia|].
  simpl length. rewrite <- cons_seq, <- seq_shift. cbn [map combine].
  rewrite map_map. f_equal. apply IH. simpl in Hle. lia.
Qed.

Lemma calculate_rsq_general (x y : list D) :
  (length x <= length y)%nat ->
  (Z.of_nat (length x) <= INT_MAX)%Z ->
  calculate_rsq (Position x y) = Ret (map squared_radius (combine x y)).
Proof.
  intros Hxy Hx. unfold calculate_rsq. simpl pos_x.
  rewrite size_int_ok by exact Hx.
  rewrite new_vector_ok by lia. simpl. rewrite Nat2Z.id.
  rewrite <- (rsq_seq (of_int 0) x y Hxy).
  apply store_loop.
  - apply repeat_length.
  - intros j v Hj _. unfold calculate_rsq_body. simpl.
    rewrite (vget_ok x j (nth j x (of_int 0))) by (apply nth_error_nth'; lia).
    rewrite (vget_ok y j (nth j y (of_int 0))) by (apply nth_error_nth'; lia).
    reflexivity.
Qed.

Lemma calculate_rsq_short_y (x y : list D) :
  (length y < length x)%nat ->
  (Z.of_nat (length x) <= INT_MAX)%Z ->
  calculate_rsq (Position x y) = Undefined.
Proof.
  intros Hlt Hx. unfold calculate_rsq. simpl pos_x.
  rewrite size_int_ok by exact Hx.
  rewrite new_vector_ok by lia. simpl. rewrite Nat2Z.id.
  apply (for_loop_stuck (fun _ v => length v = length x)
           (calculate_rsq_body (Position x y)) (length y)).
  - apply repeat_length.
  - lia.
  - intros k v Hk Hv. unfold calculate_rsq_body. simpl.
    destruct (vget_in x k ltac:(lia)) as [a Ha].
    destruct (vget_in y k ltac:(lia)) as [b Hb].
    rewrite Ha, Hb. simpl. rewrite vset_ok by lia.
    eexists. split; [reflexivity|]. rewrite upd_length. exact Hv.
  - intros v Hv. unfold calculate_rsq_body. simpl.
    destruct (vget_in x (length y) ltac:(lia)) as [a Ha].
    rewrite Ha. simpl. rewrite vget_out by lia. reflexivity.
Qed.

End EdgeFacts.

Section ExtraBatch.

Context {D : Type} {ops : DoubleOps D} {rnd : RandomLib D}.

(** X1.  A generator called on a batch uses [x.size()] as its bound and
    writes both vectors: with a y vector at least as long as the x vector it
    replaces x by the first [x.size()] draws of a sampler built afresh from
    the seed, replaces as many entries of y and leaves the rest of y
    untouched; with a shorter y it writes past the end of y. *)
Theorem generators_on_any_batch (x y : list D) (a : D) (seed : Z) :
  let n := length x in
  let filled pts := Position (map fst pts) (map snd pts ++ skipn n y) in
  ((n <= length y)%nat ->
   generate_circular_distr (Position x y) a seed =
     Ret (filled (draw_points (circular_draw a)
                    (default_random_engine seed) n)) /\
   generate_gaussian_distr (Position x y) a seed =
     Ret (filled (draw_points gaussian_draw
                    (normal_distribution (of_int 0) a,
                     default_random_engine seed) n)) /\
   generate_isotropic (Position x y) a seed =
     Ret (filled (draw_points (isotropic_draw a)
                    (default_random_engine seed) n))) /\
  ((length y < n)%nat ->
   generate_circular_distr (Position x y) a seed = Undefined /\
   generate_gaussian_distr (Position x y) a seed = Undefined /\
   generate_isotropic (Position x y) a seed = Undefined).
Proof.
  intros n filled. split.
  - intros Hle. repeat split; apply fill_general; exact Hle.
  - intros Hlt. repeat split; apply fill_short_y; exact Hlt.
Qed.

(** X3.  [calculate_rsq] returns one value per entry of x, the sum of the
    squares of the two coordinates, and does not change the batch; a y
    vector shorter than x is read out of range. *)
Theorem calculate_rsq_values (x y : list D) :
  (Z.of_nat (length x) <= INT_MAX)%Z ->
  ((length x <= length y)%nat ->
   exists r_sq,
     calculate_rsq (Position x y) = Ret r_sq /\
     length r_sq = length x /\
     forall i a b, nth_error x i = Some a -> nth_error y i = Some b ->
       nth_error r_sq i = Some (dadd (dmul a a) (dmul b b))) /\
  ((length y < length x)%nat -> calculate_rsq (Position x y) = Undefined).
Proof.
  intros Hx. split.
  - intros Hle. exists (map squared_radius (combine x y)).
    split; [apply calculate_rsq_general; assumption|].
    split; [rewrite length_map, length_combine; lia|].
    intros i a b Ha Hb. rewrite nth_error_map.
    assert (Hc : nth_error (combine x y) i = Some (a, b)).
    { clear Hx Hle. revert y i Ha Hb.
      induction x as [|u x IH]; intros [|v y] [|i] Ha Hb; simpl in *;
        try discriminate.
      - congruence.
      - apply IH; assumption. }
    rewrite Hc. reflexivity.
  - intros Hlt. apply calculate_rsq_short_y; assumption.
Qed.

End ExtraBatch.

Lemma generators_on_any_batch_witness :
  @generate_isotropic float sample_float_ops sample_float_random
    (Position [0%float] []) 1%float 7 = Undefined /\
  exists p,
    @generate_circular_distr float sample_float_ops sample_float_random
      (Position [0%float] [1%float; 2%float]) 1%float 7 = Ret p /\
    skipn 1 (pos_y p) = [2%float].
Proof.
  destruct (@generators_on_any_batch float sample_float_ops
              sample_float_random [0%float] [] 1%float 7) as [_ H1].
  destruct (@generators_on_any_batch float sample_float_ops
              sample_float_random [0%float] [1%float; 2%float] 1%float 7)
    as [H2 _].
  split.
  - apply H1. simpl. lia.
  - destruct (H2 ltac:(simpl; lia)) as [Hc _].
    eexists. split; [exact Hc|]. reflexivity.
Defined.

Lemma add_vec_unchecked_y_witness :
  @add_vec float sample_float_ops
    (Position [1%float; 2%float] [3%float; 4%float])
    [1%float; 1%float] [1%float] = Undefined.
Proof.
  apply (@add_vec_unchecked_y float sample_float_ops).
  - reflexivity.
  - simpl. unfold INT_MAX. lia.
  - right. simpl. lia.
Defined.

Lemma calculate_rsq_values_witness :
  (exists r_sq,
     @calculate_rsq float sample_float_ops
       (Position [3%float; 0%float] [4%float; 1%float]) = Ret r_sq /\
     length r_sq = 2%nat /\ nth_error r_sq 0 = Some 25%float) /\
  @calculate_rsq float sample_float_ops
    (Position [3%float; 0%float] [4%float]) = Undefined.
Proof.
  split.
  - destruct (@calculate_rsq_values float sample_float_ops
                [3%float; 0%float] [4%float; 1%float])
      as [H _]; [simpl; unfold INT_MAX; lia|].
    destruct (H ltac:(simpl; lia)) as (r & Hr & Hl & Hn).
    exists r. split; [exact Hr|]. split; [exact Hl|].
    exact (Hn 0%nat 3%float 4%float eq_refl eq_refl).
  - destruct (@calculate_rsq_values float sample_float_ops
                [3%float; 0%float] [4%float])
      as [_ H]; [simpl; unfold INT_MAX; lia|].
    apply H. simpl. lia.
Defined.

(** ** The estimator and the driver off the main path *)

Section DriverEdgeFacts.

Context {D : Type} {ops : DoubleOps D} {rnd : RandomLib D}.

Lemma valid_source_false (s : string) :
  valid_source s = false ->
  (s =? "uniform")%string = false /\ (s =? "gaussian")%string = false.
Proof. unfold valid_source. apply orb_false_iff. Qed.

Lemma geom_eff_point_negative (z source : D) (n seed : Z) (ty : string) :
  (n < 0)%Z -> geom_eff_point z source n seed ty = Throw "std::length_error".
Proof.
  intros Hn. unfold geom_eff_point, count_hits, new_vector.
  destruct (Z.ltb_spec n 0); [reflexivity | lia].
Qed.

Lemma geom_eff_point_bad_type (z source : D) (n seed : Z) (ty : string) :
  (0 <= n)%Z -> valid_source ty = false ->
  geom_eff_point z source n seed ty =
  Exit "ERROR: Not a valid source type. Choose 'circular' or 'gaussian'".
Proof.
  intros Hn Hty. destruct (valid_source_false ty Hty) as [Hu Hg].
  unfold geom_eff_point, count_hits.
  rewrite new_vector_ok by lia. cbn [bind]. rewrite Hu, Hg. reflexivity.
Qed.

Lemma geom_eff_point_last_seed (z source : D) (n : Z) (ty : string) :
  (0 <= n)%Z -> valid_source ty = true ->
  geom_eff_point z source n INT_MAX ty = Undefined.
Proof.
  intros Hn Hty. unfold geom_eff_point, count_hits.
  rewrite new_vector_ok by lia. cbn [bind].
  rewrite (source_generator_spec ty source INT_MAX _ _ Hty eq_refl).
  reflexivity.
Qed.

Lemma pow10_int_total (p : Z) :
  (p <= 9)%Z ->
  let n := (if (p <? 0)%Z then 0 else 10 ^ p)%Z in
  pow10_int p = Ret n /\ (0 <= n <= 10 ^ 9)%Z.
Proof.
  intros Hp n. subst n. unfold pow10_int.
  destruct (Z.ltb_spec p 0); [split; [reflexivity | lia]|].
  destruct (pow10_int_spec p ltac:(lia)) as [_ Hb].
  destruct (Z.leb_spec p 9); [|lia].
  split; [reflexivity | lia].
Qed.

(** The sweep for any power up to 9: a negative power makes the sample
    count 0. *)
Lemma sweep_from_any_power (seed0 : Z) (source_type detector_type : string)
    (inp : inputs) :
  valid_source source_type = true ->
  valid_detector detector_type = true ->
  (power inp <= 9)%Z ->
  (0 <= n_points inp <= INT_MAX)%Z ->
  (INT_MIN <= seed0 < INT_MAX)%Z ->
  let n := (if (power inp <? 0)%Z then 0 else 10 ^ power inp)%Z in
  let zs := linspace_values (z_min inp) (z_max inp) (n_points inp) in
  let zlast := nth (Z.to_nat (n_points inp - 1)) zs (of_int 0) in
  sweep_from seed0 source_type detector_type inp =
  Ret (Run (map (sweep_console source_type detector_type inp n seed0 zlast) zs)
           (filename inp,
            map (sweep_file source_type detector_type inp n seed0) zs)
           (flat_map (sweep_calls source_type detector_type inp n seed0) zs)
           seed0 1).
Proof.
  intros Hsty Hdty Hp Hnp Hseed n zs zlast. unfold sweep_from.
  destruct (pow10_int_total (power inp) Hp) as [Hpow Hn].
  rewrite Hpow. cbn [bind].
  rewrite linspace_spec by lia. cbn [bind]. fold zs.
  rewrite new_vector_ok by lia. cbn [bind].
  assert (Hlen : length zs = Z.to_nat (n_points inp))
    by apply linspace_values_length.
  rewrite <- Hlen.
  destruct (sweep_loop_spec seed0 source_type detector_type inp n zs
              Hsty Hdty Hn Hseed Hlen) as (eo & ei & ro & ri & Hloop).
  fold n. rewrite Hloop. cbn [bind efficiencies rel_ers console calls seed].
  rewrite (write_geo_file_spec
             (fun z => fst (sweep_result source_type detector_type inp n seed0 z))
             (fun z => snd (sweep_result source_type detector_type inp n seed0 z)))
    by lia.
  reflexivity.
Qed.

Lemma sweep_from_large_power (seed0 : Z) (source_type detector_type : string)
    (inp : inputs) :
  (9 < power inp)%Z ->
  sweep_from seed0 source_type detector_type inp = Undefined.
Proof.
  intros Hp. unfold sweep_from, pow10_int.
  destruct (Z.ltb_spec (power inp) 0); [lia|].
  destruct (Z.leb_spec (power inp) 9); [lia|]. reflexivity.
Qed.

Lemma sweep_from_negative_points (seed0 : Z)
    (source_type detector_type : string) (inp : inputs) :
  (power inp <= 9)%Z -> (n_points inp < 0)%Z ->
  sweep_from seed0 source_type detector_type inp = Throw "std::length_error".
Proof.
  intros Hp Hn. unfold sweep_from.
  rewrite (proj1 (pow10_int_total (power inp) Hp)). cbn [bind].
  rewrite linspace_negative by exact Hn. reflexivity.
Qed.

(** [main] unfolded along its tests, in the order the code makes them. *)
Lemma main_cases (argv : list string) (inp : inputs) :
  main argv inp =
  if negb (length argv =? 3)%nat then
    Exit "ERROR: input option 'uniform' or 'gaussian' for the source distribution and 'circular' or 'annular' for the detector"
  else if negb (valid_source (nth 1 argv EmptyString)) then
    Exit "ERROR: input option 'uniform' or 'gaussian' for the source distribution"
  else if negb (valid_detector (nth 2 argv EmptyString)) then
    Exit "ERROR: input option 'circular' or 'annular' for the source distribution"
  else sweep_from 15763027 (nth 1 argv EmptyString) (nth 2 argv EmptyString)
         inp.
Proof.
  unfold main, valid_source, valid_detector.
  destruct (length argv =? 3)%nat; cbn [negb]; [|reflexivity].
  rewrite !negb_orb. reflexivity.
Qed.

End DriverEdgeFacts.

Section ExtraDriver.

Context {D : Type} {ops : DoubleOps D} {rnd : RandomLib D}.

(** X4.  How one evaluation of the estimator fails.  A negative sample
    count ends it in the constructor of the first vector, before the source
    type is looked at; with a sample count of 0 or more, an unrecognised
    source type ends the program with the type message; with a recognised
    type and the largest [int] as seed, the increment of the seed
    overflows. *)
Theorem estimator_failure_modes (z source : D) (n seed : Z)
    (source_type : string) :
  ((n < 0)%Z ->
   geom_eff_point z source n seed source_type = Throw "std::length_error") /\
  ((0 <= n)%Z -> valid_source source_type = false ->
   geom_eff_point z source n seed source_type =
   Exit "ERROR: Not a valid source type. Choose 'circular' or 'gaussian'") /\
  ((0 <= n)%Z -> valid_source source_type = true -> seed = INT_MAX ->
   geom_eff_point z source n seed source_type = Undefined).
Proof.
  split; [|split].
  - apply geom_eff_point_negative.
  - apply geom_eff_point_bad_type.
  - intros Hn Hty ->. apply geom_eff_point_last_seed; assumption.
Qed.

(** X5.  The outcome of [main], test by test in the order of the code:
    a number of arguments other than 3, then an unrecognised source type,
    then an unrecognised detector type end the program with the message of
    that test (the detector message says source distribution); then a
    power above 9 overflows the sample count; then a negative number of
    points ends the run in a vector constructor; in every other case the run
    completes with status 1, the file named as asked, and one console row
    and one file row per point. *)
Theorem main_outcome (argv : list string) (inp : inputs) :
  (n_points inp <= INT_MAX)%Z ->
  if negb (length argv =? 3)%nat then
    main argv inp =
    Exit "ERROR: input option 'uniform' or 'gaussian' for the source distribution and 'circular' or 'annular' for the detector"
  else if negb (valid_source (nth 1 argv EmptyString)) then
    main argv inp =
    Exit "ERROR: input option 'uniform' or 'gaussian' for the source distribution"
  else if negb (valid_detector (nth 2 argv EmptyString)) then
    main argv inp =
    Exit "ERROR: input option 'circular' or 'annular' for the source distribution"
  else if (9 <? power inp)%Z then main argv inp = Undefined
  else if (n_points inp <? 0)%Z then
    main argv inp = Throw "std::length_error"
  else
    exists r, main argv inp = Ret r /\
      run_status r = 1%Z /\ fst (run_file r) = filename inp /\
      length (run_console r) = Z.to_nat (n_points inp) /\
      length (snd (run_file r)) = Z.to_nat (n_points inp).
Proof.
  intros Hmax. rewrite main_cases.
  destruct (negb (length argv =? 3)%nat); [reflexivity|].
  destruct (valid_source (nth 1 argv EmptyString)) eqn:Hs;
    cbn [negb]; [|reflexivity].
  destruct (valid_detector (nth 2 argv EmptyString)) eqn:Hd;
    cbn [negb]; [|reflexivity].
  destruct (Z.ltb_spec 9 (power inp)) as [Hp|Hp].
  { apply sweep_from_large_power. exact Hp. }
  destruct (Z.ltb_spec (n_points inp) 0) as [Hn|Hn].
  { apply sweep_from_negative_points; [exact Hp | exact Hn]. }
  eexists. split.
  { apply sweep_from_any_power; try assumption; try lia.
    unfold INT_MIN, INT_MAX. lia. }
  cbn [run_status run_file run_console fst snd].
  rewrite !length_map, linspace_values_length. repeat split.
Qed.

(** X6.  The only messages [main] can end with are the three of its own
    argument tests: the type tests inside [geom_eff_point] and inside the
    sweep loop, and the size test of [add_vec], never fire in a run. *)
Theorem main_exit_messages (argv : list string) (inp : inputs) (msg : string) :
  (n_points inp <= INT_MAX)%Z ->
  main argv inp = Exit msg ->
  In msg
    ["ERROR: input option 'uniform' or 'gaussian' for the source distribution and 'circular' or 'annular' for the detector";
     "ERROR: input option 'uniform' or 'gaussian' for the source distribution";
     "ERROR: input option 'circular' or 'annular' for the source distribution"]%string.
Proof.
  intros Hmax. rewrite main_cases.
  destruct (negb (length argv =? 3)%nat).
  { intros H. injection H as <-. left. reflexivity. }
  destruct (valid_source (nth 1 argv EmptyString)) eqn:Hs; cbn [negb].
  2:{ intros H. injection H as <-. right. left. reflexivity. }
  destruct (valid_detector (nth 2 argv EmptyString)) eqn:Hd; cbn [negb].
  2:{ intros H. injection H as <-. right. right. left. reflexivity. }
  destruct (Z.ltb_spec 9 (power inp)) as [Hp|Hp].
  { rewrite sweep_from_large_power by exact Hp. discriminate. }
  destruct (Z.ltb_spec (n_points inp) 0) as [Hn|Hn].
  { rewrite sweep_from_negative_points by assumption. discriminate. }
  rewrite sweep_from_any_power; try assumption; try lia.
  - discriminate.
  - unfold INT_MIN, INT_MAX. lia.
Qed.

(** X7.  In a completed run the console table and the output file agree:
    they have the same efficiency and relative-error columns, row by row;
    the second column of the file is the point-source value of the first;
    the first column of the console is the distance divided by the one at
    index [n_points - 1]; and the distances are those of [linspace]. *)
Theorem run_tables_agree (prog source_type detector_type : string)
    (inp : inputs) :
  valid_source source_type = true ->
  valid_detector detector_type = true ->
  (power inp <= 9)%Z ->
  (0 <= n_points inp <= INT_MAX)%Z ->
  exists r zs,
    main [prog; source_type; detector_type] inp = Ret r /\
    linspace (z_min inp) (z_max inp) (n_points inp) = Ret zs /\
    map (fun row : file_row => fst (fst (fst row))) (snd (run_file r)) = zs /\
    map (fun row : console_row => (snd (fst row), snd row)) (run_console r) =
    map (fun row : file_row => (snd (fst row), snd row)) (snd (run_file r)) /\
    map (fun row : file_row => snd (fst (fst row))) (snd (run_file r)) =
    map point_source_value zs /\
    map (fun row : console_row => fst (fst row)) (run_console r) =
    map (fun z => ddiv z (nth (Z.to_nat (n_points inp - 1)) zs (of_int 0))) zs.
Proof.
  intros Hs Hd Hp Hn.
  eexists. exists (linspace_values (z_min inp) (z_max inp) (n_points inp)).
  split.
  { rewrite main_spec by assumption.
    apply sweep_from_any_power; try assumption.
    unfold INT_MIN, INT_MAX. lia. }
  split; [apply linspace_spec; lia|].
  cbn [run_file run_console snd].
  set (zs := linspace_values (z_min inp) (z_max inp) (n_points inp)).
  clearbody zs. rewrite !map_map. unfold sweep_console, sweep_file.
  cbn [fst snd]. repeat split. apply map_id.
Qed.

End ExtraDriver.

Lemma estimator_failure_modes_witness :
  @geom_eff_point float sample_float_ops sample_float_random
    1%float 1%float (-1) 7 "circular" = Throw "std::length_error" /\
  @geom_eff_point float sample_float_ops sample_float_random
    1%float 1%float 10 7 "circular" =
    Exit "ERROR: Not a valid source type. Choose 'circular' or 'gaussian'" /\
  @geom_eff_point float sample_float_ops sample_float_random
    1%float 1%float 10 2147483647 "uniform" = Undefined.
Proof.
  split; [|split].
  - apply (@estimator_failure_modes float sample_float_ops
             sample_float_random 1%float 1%float (-1) 7 "circular"). lia.
  - apply (@estimator_failure_modes float sample_float_ops
             sample_float_random 1%float 1%float 10 7 "circular");
      [lia | reflexivity].
  - apply (@estimator_failure_modes float sample_float_ops
             sample_float_random 1%float 1%float 10 2147483647 "uniform");
      [lia | reflexivity | reflexivity].
Defined.

Lemma main_outcome_witness :
  @main float sample_float_ops sample_float_random
    ["Isotropic_emission"; "uniform"; "square"]%string
    (Inputs 0%float 5%float 3 0%float 1 1%float "out.txt") =
  Exit "ERROR: input option 'circular' or 'annular' for the source distribution"
  /\
  @main float sample_float_ops sample_float_random
    ["Isotropic_emission"; "uniform"; "circular"]%string
    (Inputs 0%float 5%float (-3) 0%float 10 1%float "out.txt") = Undefined.
Proof.
  split.
  - apply (@main_outcome float sample_float_ops sample_float_random
             ["Isotropic_emission"; "uniform"; "square"]%string
             (Inputs 0%float 5%float 3 0%float 1 1%float "out.txt")).
    simpl. unfold INT_MAX. lia.
  - apply (@main_outcome float sample_float_ops sample_float_random
             ["Isotropic_emission"; "uniform"; "circular"]%string
             (Inputs 0%float 5%float (-3) 0%float 10 1%float "out.txt")).
    simpl. unfold INT_MAX. lia.
Defined.

Lemma main_exit_messages_witness :
  In "ERROR: input option 'uniform' or 'gaussian' for the source distribution"%string
    ["ERROR: input option 'uniform' or 'gaussian' for the source distribution and 'circular' or 'annular' for the detector";
     "ERROR: input option 'uniform' or 'gaussian' for the source distribution";
     "ERROR: input option 'circular' or 'annular' for the source distribution"]%string.
Proof.
  apply (@main_exit_messages float sample_float_ops sample_float_random
           ["Isotropic_emission"; "circular"; "uniform"]%string
           (Inputs 0%float 5%float 3 0%float 1 1%float "out.txt")).
  - simpl. unfold INT_MAX. lia.
  - reflexivity.
Defined.

Lemma run_tables_agree_witness :
  exists r zs,
    @main float sample_float_ops sample_float_random
      ["Isotropic_emission"; "gaussian"; "annular"]%string
      (Inputs 0%float 5%float 3 0.5%float (-2) 2%float "out.txt") = Ret r /\
    @linspace float sample_float_ops 0%float 5%float 3 = Ret zs /\
    map (fun row : file_row => fst (fst (fst row))) (snd (run_file r)) = zs /\
    map (fun row : console_row => (snd (fst row), snd row)) (run_console r) =
    map (fun row : file_row => (snd (fst row), snd row)) (snd (run_file r)).
Proof.
  destruct (@run_tables_agree float sample_float_ops sample_float_random
              "Isotropic_emission" "gaussian" "annular"
              (Inputs 0%float 5%float 3 0.5%float (-2) 2%float "out.txt"))
    as (r & zs & H1 & H2 & H3 & H4 & _).
  - reflexivity.
  - reflexivity.
  - simpl. lia.
  - simpl. unfold INT_MAX. lia.
  - exists r, zs. repeat split; assumption.
Defined.

(** ** The real-number reading, continued *)

Section ListFacts.

Lemma Forall_nth_error {A : Type} (P : A -> Prop) (l : list A) :
  (forall i a, nth_error l i = Some a -> P a) -> Forall P l.
Proof.
  intros H. apply Forall_forall. intros a Ha.
  destruct (In_nth_error l a Ha) as [i Hi]. exact (H i a Hi).
Qed.

Lemma filter_all {A : Type} (f : A -> bool) (l : list A) :
  Forall (fun a => f a = true) l -> filter f l = l.
Proof.
  induction 1 as [|a l Ha _ IH]; simpl; [reflexivity|].
  rewrite Ha, IH. reflexivity.
Qed.

Lemma filter_none {A : Type} (f : A -> bool) (l : list A) :
  Forall (fun a => f a = false) l -> filter f l = [].
Proof.
  induction 1 as [|a l Ha _ IH]; simpl; [reflexivity|].
  rewrite Ha. exact IH.
Qed.

Lemma filter_length_mono {A : Type} (f g : A -> bool) (l : list A) :
  (forall a, f a = true -> g a = true) ->
  (length (filter f l) <= length (filter g l))%nat.
Proof.
  intros H. induction l as [|a l IH]; simpl; [lia|].
  destruct (f a) eqn:Ef.
  - rewrite (H a Ef). simpl. lia.
  - destruct (g a); simpl; lia.
Qed.

End ListFacts.

Section TranslateFacts.

Context {D : Type} {ops : DoubleOps D}.

Lemma Forall_nth_error_elim {A : Type} (P : A -> Prop) (l : list A) (i : nat)
    (a : A) :
  Forall P l -> nth_error l i = Some a -> P a.
Proof.
  intros H Hi. rewrite Forall_forall in H. apply H.
  eapply nth_error_In. exact Hi.
Qed.

(** The points of a batch summed with offsets: a property of every pair
    source point, offset carries over to the sums. *)
Lemma translate_Forall (P Q T : D * D -> Prop) (a b : list (D * D)) :
  length a = length b ->
  Forall P a -> Forall Q b ->
  (forall p q, P p -> Q q -> T (dadd (fst p) (fst q), dadd (snd p) (snd q))) ->
  Forall T (translate a b).
Proof.
  intros Hab Ha Hb H. apply Forall_nth_error. intros i t Ht.
  assert (Hl : length (translate a b) = length a).
  { unfold translate. rewrite length_combine, !vadd_length;
      rewrite ?length_map; lia. }
  assert (Hi : (i < length a)%nat).
  { rewrite <- Hl. apply nth_error_Some. rewrite Ht. discriminate. }
  destruct (nth_error a i) as [p|] eqn:Ep;
    [|apply nth_error_None in Ep; lia].
  destruct (nth_error b i) as [q|] eqn:Eq;
    [|apply nth_error_None in Eq; lia].
  rewrite (translate_nth a b i p q Hab Ep Eq) in Ht.
  injection Ht as <-.
  apply H; [exact (Forall_nth_error_elim P a i p Ha Ep)
           | exact (Forall_nth_error_elim Q b i q Hb Eq)].
Qed.

End TranslateFacts.

Section RealFacts.

Context {rnd : RandomLib R}.

Open Scope R_scope.

Lemma Rleb_true (a b : R) : a <= b -> Rleb a b = true.
Proof. intros H. unfold Rleb. destruct (Rle_dec a b); [reflexivity | contradiction]. Qed.

Lemma Rleb_le (a b : R) : Rleb a b = true -> a <= b.
Proof. unfold Rleb. destruct (Rle_dec a b); [auto | discriminate]. Qed.

Lemma is_hit_real (p : R * R) :
  @is_hit R R_ops p = true <-> fst p * fst p + snd p * snd p <= 1.
Proof.
  unfold is_hit, squared_radius. cbn [dleb dadd dmul of_int R_ops].
  split; [apply Rleb_le | apply Rleb_true].
Qed.

(** Every point of a batch a hit: the count is the size of the batch. *)
Lemma hit_count_all (l : list (R * R)) :
  Forall (fun p => @is_hit R R_ops p = true) l ->
  @hit_count R R_ops l = Z.of_nat (length l).
Proof. intros H. unfold hit_count. rewrite filter_all by exact H. reflexivity. Qed.

Lemma isotropic_zero_points (n : nat) :
  forall g, Forall (fun q : R * R => q = (0, 0))
                   (draw_points (@isotropic_draw R R_ops rnd 0) g n).
Proof.
  induction n as [|n IH]; intros g; simpl; [constructor|].
  destruct (isotropic_draw 0 g) as [q g'] eqn:E.
  constructor; [|apply IH].
  unfold isotropic_draw in E. cbn [of_int dmul dsub dacos dtan dcos dsin R_ops] in E.
  destruct (uniform_real_distribution _ _ g) as [phi g1].
  destruct (uniform_real_distribution _ _ g1) as [u g2].
  injection E as <- _. f_equal; ring.
Qed.

Lemma efficiency_percent_real (z source : R) (n seed : Z) (ty : string) :
  @efficiency_percent R R_ops rnd z source n seed ty =
  50 * IZR (hit_count (landing_points z source n seed ty)) / IZR n.
Proof. reflexivity. Qed.

Lemma circular_draw_scaled (r c : R) (g : engine) :
  @circular_draw R R_ops rnd (r * c) g =
  ((fst (fst (circular_draw r g)) * c, snd (fst (circular_draw r g)) * c),
   snd (circular_draw r g)).
Proof.
  unfold circular_draw. cbn [of_int dmul dsqrt dcos dsin R_ops].
  destruct (uniform_real_distribution _ _ g) as [phi g1].
  destruct (uniform_real_distribution _ _ g1) as [u g2].
  cbn [fst snd]. f_equal. f_equal; ring.
Qed.

Lemma isotropic_draw_scaled (z c : R) (g : engine) :
  @isotropic_draw R R_ops rnd (z * c) g =
  ((fst (fst (isotropic_draw z g)) * c, snd (fst (isotropic_draw z g)) * c),
   snd (isotropic_draw z g)).
Proof.
  unfold isotropic_draw. cbn [of_int dmul dsub dacos dtan dcos dsin R_ops].
  destruct (uniform_real_distribution _ _ g) as [phi g1].
  destruct (uniform_real_distribution _ _ g1) as [u g2].
  cbn [fst snd]. f_equal. f_equal; ring.
Qed.

Lemma draw_points_scaled {G : Type} (d1 d2 : G -> (R * R) * G) (c : R) :
  (forall g, d2 g = ((fst (fst (d1 g)) * c, snd (fst (d1 g)) * c), snd (d1 g))) ->
  forall n g,
    draw_points d2 g n =
    map (fun p => (fst p * c, snd p * c)) (draw_points d1 g n).
Proof.
  intros H. induction n as [|n IH]; intros g; simpl; [reflexivity|].
  rewrite H. destruct (d1 g) as [p g']. cbn [fst snd map]. f_equal. apply IH.
Qed.

Lemma translate_scaled (c : R) (a : list (R * R)) :
  forall b,
    @translate R R_ops (map (fun p => (fst p * c, snd p * c)) a)
                       (map (fun p => (fst p * c, snd p * c)) b) =
    map (fun p => (fst p * c, snd p * c)) (@translate R R_ops a b).
Proof.
  unfold translate.
  induction a as [|p a IH]; intros [|q b]; try reflexivity.
  cbn [map vadd combine fst snd dadd R_ops]. rewrite IH.
  f_equal. f_equal; ring.
Qed.

(** With a uniform source, the landing points of the inner evaluation of an
    annular detector are those of the outer one, scaled by the ratio. *)
Lemma landing_points_scaled (z source c : R) (n seed : Z) :
  @landing_points R R_ops rnd (z * c) (source * c) n seed "uniform" =
  map (fun p => (fst p * c, snd p * c))
      (landing_points z source n seed "uniform").
Proof.
  unfold landing_points, source_points, emission_points.
  change ("uniform" =? "uniform")%string with true. cbv iota.
  rewrite (draw_points_scaled (circular_draw source) (circular_draw (source * c)) c
             (circular_draw_scaled source c)).
  rewrite (draw_points_scaled (isotropic_draw z) (isotropic_draw (z * c)) c
             (isotropic_draw_scaled z c)).
  apply translate_scaled.
Qed.

Lemma ratio_le_mult (a b n : R) : 0 < n -> a <= b -> 50 * a / n <= 50 * b / n.
Proof.
  intros Hn Hab. unfold Rdiv.
  apply Rmult_le_compat_r; [left; apply Rinv_0_lt_compat; exact Hn | lra].
Qed.

Lemma abs_ratio_lt_one (z : R) :
  -1 < z / R_sqrt.sqrt (1 + z * z) < 1.
Proof.
  destruct (sqrt_one_plus_square z) as [Hs Hs2].
  set (s := R_sqrt.sqrt (1 + z * z)) in *.
  assert (Hz : - s < z < s) by (split; nra).
  split.
  - apply Rmult_lt_reg_r with (r := s); [exact Hs|].
    replace (z / s * s) with z by (field; lra). lra.
  - apply Rmult_lt_reg_r with (r := s); [exact Hs|].
    replace (z / s * s) with z by (field; lra). lra.
Qed.

End RealFacts.

Section ExtraReal.

Context {rnd : RandomLib R}.

Open Scope R_scope.

(** X8.  In real arithmetic the relative error the driver derives from an
    evaluation is 100 / sqrt(hits): the sample count cancels out of
    100 / sqrt(2 * n * efficiency / 100). *)
Theorem relative_error_from_hits (z source : R) (n seed : Z) (ty : string) :
  (1 <= n <= 10 ^ 9)%Z ->
  (INT_MIN <= seed < INT_MAX)%Z ->
  valid_source ty = true ->
  exists hits e,
    @count_hits R R_ops rnd z source n seed ty = Ret hits /\
    @geom_eff_point R R_ops rnd z source n seed ty = Ret e /\
    @rel_er R R_ops n e = Ret (100 / R_sqrt.sqrt (IZR hits)).
Proof.
  intros Hn Hs Hty.
  assert (HnI : (0 <= n <= INT_MAX)%Z) by (unfold INT_MAX; lia).
  eexists. eexists.
  split; [apply count_hits_spec; assumption|].
  split; [apply geom_eff_point_spec; assumption|].
  rewrite rel_er_spec by lia. f_equal.
  unfold rel_er_value. rewrite efficiency_percent_real.
  cbn [ddiv dmul dsqrt of_int R_ops]. f_equal. f_equal.
  rewrite mult_IZR. field. apply not_0_IZR. lia.
Qed.

(** X9.  In real arithmetic, at distance 0 every emission offset is 0, so a
    uniform source no larger than the detector is seen in full: the
    efficiency is exactly 50. *)
Theorem zero_distance_efficiency (source : R) (n seed : Z) :
  (1 <= n <= INT_MAX)%Z ->
  (INT_MIN <= seed < INT_MAX)%Z ->
  source * source <= 1 ->
  (forall g, 0 <= fst (uniform_real_distribution (IZR 0) (IZR 1) g) <= 1) ->
  @geom_eff_point R R_ops rnd 0 source n seed "uniform" = Ret 50.
Proof.
  intros Hn Hs Hsrc Hu.
  rewrite geom_eff_point_spec by (reflexivity || assumption || lia).
  f_equal. rewrite efficiency_percent_real.
  rewrite hit_count_all.
  - rewrite landing_points_length, Z2Nat.id by lia.
    field. apply not_0_IZR. lia.
  - unfold landing_points.
    apply translate_Forall
      with (P := fun p : R * R =>
                   fst p * fst p + snd p * snd p <= source * source)
           (Q := fun q : R * R => q = (0, 0)).
    + rewrite source_points_length. unfold emission_points.
      rewrite draw_points_length. reflexivity.
    + unfold source_points.
      change ("uniform" =? "uniform")%string with true. cbv iota.
      apply circular_points_in_disc. exact Hu.
    + apply isotropic_zero_points.
    + intros p q Hp ->. apply is_hit_real. cbn [fst snd dadd R_ops].
      rewrite !Rplus_0_r. lra.
Qed.

(** X10.  The sign of an annular efficiency, in real arithmetic and for a
    uniform source.  The inner evaluation is made at the distance and source
    size multiplied by the ratio, with the same seed, so its landing points
    are the outer ones scaled by the ratio: with a ratio of 1 or more in
    absolute value the inner efficiency cannot exceed the outer one and the
    difference reported is 0 or more; with a ratio of at most 1 in absolute
    value the difference is 0 or less. *)
Theorem annular_efficiency_sign (z source c : R) (n seed : Z) :
  (1 <= n <= INT_MAX)%Z ->
  (INT_MIN <= seed < INT_MAX)%Z ->
  exists eo ei,
    @geom_eff_point R R_ops rnd z source n seed "uniform" = Ret eo /\
    @geom_eff_point R R_ops rnd (dmul z c) (dmul source c) n seed "uniform"
      = Ret ei /\
    (1 <= c * c -> 0 <= dsub eo ei) /\
    (c * c <= 1 -> dsub eo ei <= 0).
Proof.
  intros Hn Hs.
  eexists. eexists.
  split; [apply geom_eff_point_spec; (reflexivity || assumption || lia)|].
  split; [apply geom_eff_point_spec; (reflexivity || assumption || lia)|].
  cbn [dmul dsub R_ops]. rewrite !efficiency_percent_real.
  rewrite landing_points_scaled.
  set (pts := landing_points z source n seed "uniform").
  assert (Hn0 : 0 < IZR n) by (apply IZR_lt; lia).
  assert (Hsq : forall p : R * R,
            fst p * c * (fst p * c) + snd p * c * (snd p * c) =
            c * c * (fst p * fst p + snd p * snd p)) by (intros p; ring).
  unfold hit_count. rewrite filter_map_length.
  split; intros Hc.
  - assert (Hle : (length (filter (fun p : (R * R)%type => @is_hit R R_ops (fst p * c, snd p * c)%R) pts)
                   <= length (filter (@is_hit R R_ops) pts))%nat).
    { apply filter_length_mono. intros p Hp.
      apply is_hit_real in Hp. apply is_hit_real. cbn [fst snd] in Hp.
      rewrite Hsq in Hp.
      assert (0 <= fst p * fst p + snd p * snd p) by nra. nra. }
    apply Nat2Z.inj_le, IZR_le in Hle.
    pose proof (ratio_le_mult _ _ (IZR n) Hn0 Hle). lra.
  - assert (Hle : (length (filter (@is_hit R R_ops) pts)
                   <= length (filter (fun p : (R * R)%type => @is_hit R R_ops (fst p * c, snd p * c)%R) pts))%nat).
    { apply filter_length_mono. intros p Hp.
      apply is_hit_real in Hp. apply is_hit_real. cbn [fst snd].
      rewrite Hsq.
      assert (0 <= fst p * fst p + snd p * snd p) by nra.
      assert (0 <= c * c) by nra. nra. }
    apply Nat2Z.inj_le, IZR_le in Hle.
    pose proof (ratio_le_mult _ _ (IZR n) Hn0 Hle). lra.
Qed.

(** X11.  In real arithmetic the point-source value lies strictly between
    0 and 100 at every distance, is at most 50 from distance 0 on, and the
    values at z and -z add up to 100. *)
Theorem point_source_range (z : R) :
  0 < @point_source_value R R_ops z < 100 /\
  @point_source_value R R_ops (- z) = 100 - @point_source_value R R_ops z /\
  (0 <= z -> @point_source_value R R_ops z <= 50).
Proof.
  rewrite !point_source_value_real.
  pose proof (abs_ratio_lt_one z) as Hr.
  destruct (sqrt_one_plus_square z) as [Hs _].
  replace (1 + - z * - z) with (1 + z * z) by ring.
  set (s := R_sqrt.sqrt (1 + z * z)) in *.
  replace (50 * z / s) with (50 * (z / s)) by (unfold Rdiv; ring).
  replace (50 * - z / s) with (- (50 * (z / s))) by (unfold Rdiv; ring).
  split; [lra|]. split; [lra|].
  intros Hz.
  assert (0 <= z / s).
  { apply Rmult_le_pos; [exact Hz|]. left. apply Rinv_0_lt_compat. exact Hs. }
  lra.
Qed.

(** X12.  In real arithmetic, for [min < max] and two points or more, the
    distances of [linspace] increase strictly and all lie between [min] and
    [max]. *)
Theorem linspace_increasing (a b : R) (n : Z) :
  (2 <= n)%Z -> a < b ->
  exists zs,
    @linspace R R_ops a b n = Ret zs /\
    length zs = Z.to_nat n /\
    (forall i u v, nth_error zs i = Some u ->
       nth_error zs (Datatypes.S i) = Some v -> u < v) /\
    Forall (fun z => a <= z <= b) zs.
Proof.
  intros Hn Hab. exists (@linspace_values R R_ops a b n).
  split; [apply linspace_spec; lia|].
  split; [apply linspace_values_length|].
  assert (Hd : 0 < IZR n - 1).
  { assert (2 <= IZR n) by (apply IZR_le; exact Hn). lra. }
  split.
  - intros i u v Hu Hv.
    destruct (linspace_real a b n Hn) as (_ & _ & Hstep).
    specialize (Hstep i u v Hu Hv).
    assert (0 < (b - a) / (IZR n - 1)).
    { apply Rmult_lt_0_compat; [lra|]. apply Rinv_0_lt_compat. exact Hd. }
    lra.
  - apply Forall_nth_error. intros i u Hu.
    assert (Hi : (i < Z.to_nat n)%nat).
    { rewrite <- (linspace_values_length a b n).
      apply nth_error_Some. rewrite Hu. discriminate. }
    rewrite linspace_values_nth in Hu by exact Hi.
    injection Hu as <-. cbn [dadd dmul ddiv dsub of_int R_ops].
    rewrite minus_IZR. rewrite Rmult_1_l.
    assert (H0 : 0 <= IZR (Z.of_nat i)) by (apply IZR_le; lia).
    assert (H1 : IZR (Z.of_nat i) <= IZR n - 1).
    { rewrite <- minus_IZR. apply IZR_le. lia. }
    set (k := IZR (Z.of_nat i)) in *. set (d := IZR n - 1) in *.
    assert (Hk : 0 <= k / d <= 1).
    { split.
      - apply Rmult_le_pos; [exact H0|]. left. apply Rinv_0_lt_compat, Hd.
      - apply Rmult_le_reg_r with (r := d); [exact Hd|].
        replace (k / d * d) with k by (field; lra). lra. }
    replace ((b - a) / d * k) with ((b - a) * (k / d)) by (field; lra).
    nra.
Qed.

End ExtraReal.

Lemma relative_error_from_hits_witness :
  exists hits e,
    @count_hits R R_ops sample_real_random 1%R 0%R 10 15763027 "uniform"
      = Ret hits /\
    @geom_eff_point R R_ops sample_real_random 1%R 0%R 10 15763027 "uniform"
      = Ret e /\
    @rel_er R R_ops 10 e = Ret (100 / R_sqrt.sqrt (IZR hits))%R.
Proof.
  apply (@relative_error_from_hits sample_real_random 1%R 0%R 10 15763027
           "uniform").
  - lia.
  - unfold INT_MIN, INT_MAX. lia.
  - reflexivity.
Defined.

Lemma zero_distance_efficiency_witness :
  @geom_eff_point R R_ops sample_real_random 0%R 1%R 10 15763027 "uniform"
    = Ret 50%R.
Proof.
  apply (@zero_distance_efficiency sample_real_random 1%R 10 15763027).
  - unfold INT_MAX. lia.
  - unfold INT_MIN, INT_MAX. lia.
  - lra.
  - exact sample_uniform_unit.
Defined.

Lemma annular_efficiency_sign_witness :
  exists eo ei,
    @geom_eff_point R R_ops sample_real_random 1%R 1%R 10 15763027 "uniform"
      = Ret eo /\
    @geom_eff_point R R_ops sample_real_random (1 * 2)%R (1 * 2)%R 10
      15763027 "uniform" = Ret ei /\
    (0 <= eo - ei)%R.
Proof.
  destruct (@annular_efficiency_sign sample_real_random 1%R 1%R 2%R 10
              15763027) as (eo & ei & Ho & Hi & Hpos & _).
  - unfold INT_MAX. lia.
  - unfold INT_MIN, INT_MAX. lia.
  - exists eo, ei. split; [exact Ho|]. split; [exact Hi|].
    apply Hpos. lra.
Defined.

Lemma linspace_increasing_witness :
  exists zs,
    @linspace R R_ops 0%R 5%R 3 = Ret zs /\
    length zs = 3%nat /\
    Forall (fun z => (0 <= z <= 5)%R) zs.
Proof.
  destruct (linspace_increasing 0%R 5%R 3) as (zs & H1 & H2 & _ & H4).
  - lia.
  - lra.
  - exists zs. repeat split; assumption.
Defined.

Lemma point_source_range_witness :
  (0 < @point_source_value R R_ops 1 <= 50)%R.
Proof.
  destruct (point_source_range 1%R) as ([H0 _] & _ & H50).
  split; [exact H0 | apply H50; lra].
Defined.

(** ** The binary64 reading, continued *)

Section NanFacts.

Lemma nan_mul_l (x : float) : (nan * x)%float = nan.
Proof.
  apply Prim2SF_inj. rewrite FloatAxioms.mul_spec.
  change (Prim2SF nan) with S754_nan. reflexivity.
Qed.

Lemma nan_div_l (x : float) : (nan / x)%float = nan.
Proof.
  apply Prim2SF_inj. rewrite FloatAxioms.div_spec.
  change (Prim2SF nan) with S754_nan. reflexivity.
Qed.

Lemma nan_add_r (x : float) : (x + nan)%float = nan.
Proof.
  apply Prim2SF_inj. rewrite FloatAxioms.add_spec.
  change (Prim2SF nan) with S754_nan.
  destruct (Prim2SF x); reflexivity.
Qed.

(** Whatever [x], [x / 0 * 0] is a NaN: the quotient is an infinity or a
    NaN. *)
Lemma div_zero_mul_zero (x : float) : (x / 0 * 0)%float = nan.
Proof.
  apply Prim2SF_inj.
  rewrite FloatAxioms.mul_spec, FloatAxioms.div_spec.
  change (Prim2SF 0) with (S754_zero false).
  change (Prim2SF nan) with S754_nan.
  destruct (Prim2SF x) as [s|s| |s mx ex]; try destruct s; reflexivity.
Qed.

End NanFacts.

Section Binary64Sweep.

Variable m : libm.
Variable rnd : RandomLib float.

Lemma isotropic_nan_points (n : nat) :
  forall g, Forall (fun q : float * float => q = (nan, nan))
                   (draw_points (@isotropic_draw float (float_ops m) rnd nan) g n).
Proof.
  induction n as [|n IH]; intros g; simpl; [constructor|].
  destruct (isotropic_draw nan g) as [q g'] eqn:E.
  constructor; [|apply IH].
  unfold isotropic_draw in E.
  cbn [of_int dmul dsub dacos dtan dcos dsin float_ops] in E.
  destruct (uniform_real_distribution _ _ g) as [phi g1].
  destruct (uniform_real_distribution _ _ g1) as [u g2].
  injection E as <- _. rewrite !nan_mul_l. reflexivity.
Qed.

Lemma hit_count_nan_distance (source : float) (n seed : Z) (ty : string) :
  @hit_count float (float_ops m)
    (@landing_points float (float_ops m) rnd nan source n seed ty) = 0%Z.
Proof.
  unfold hit_count. rewrite filter_none; [reflexivity|].
  unfold landing_points.
  apply translate_Forall
    with (P := fun _ : float * float => True)
         (Q := fun q : float * float => q = (nan, nan)).
  - rewrite source_points_length. unfold emission_points.
    rewrite draw_points_length. reflexivity.
  - apply Forall_forall. intros; exact I.
  - apply isotropic_nan_points.
  - intros p q _ ->. cbn [fst snd dadd float_ops].
    rewrite !nan_add_r. reflexivity.
Qed.

Lemma efficiency_nan_distance (source : float) (n seed : Z) (ty : string) :
  (1 <= n <= INT_MAX)%Z ->
  @efficiency_percent float (float_ops m) rnd nan source n seed ty = 0%float.
Proof.
  intros Hn. unfold efficiency_percent. rewrite hit_count_nan_distance.
  cbn [ddiv dmul of_int float_ops].
  change (float_of_int 50 * float_of_int 0)%float with 0%float.
  apply zero_div_int. unfold INT_MAX in Hn. lia.
Qed.

Lemma rel_er_value_zero (n : Z) :
  (1 <= n <= 10 ^ 9)%Z ->
  @rel_er_value float (float_ops m) n 0%float = infinity.
Proof.
  intros Hn. unfold rel_er_value. cbn [ddiv dmul of_int dsqrt float_ops].
  rewrite int_mul_zero by lia. reflexivity.
Qed.

Lemma linspace_single (a b : float) :
  @linspace_values float (float_ops m) a b 1 = [nan].
Proof.
  unfold linspace_values. change (seq 0 (Z.to_nat 1)) with [0%nat].
  cbn [map dadd dmul ddiv dsub of_int float_ops].
  change (1 - 1)%Z with 0%Z. change (Z.of_nat 0) with 0%Z.
  change (float_of_int 0) with 0%float.
  change (float_of_int 1 * 0)%float with 0%float.
  rewrite div_zero_mul_zero, nan_add_r. reflexivity.
Qed.

Lemma point_source_value_nan :
  @point_source_value float (float_ops m) nan = nan.
Proof.
  unfold point_source_value. cbn [dadd dsub dmul ddiv dsqrt dpow of_int float_ops].
  change (float_of_int 50 * nan)%float with nan.
  rewrite nan_div_l. reflexivity.
Qed.

Lemma sweep_result_nan_distance (st dt : string) (inp : inputs) (n seed : Z) :
  (1 <= n <= 10 ^ 9)%Z ->
  @sweep_result float (float_ops m) rnd st dt inp n seed nan =
  (0%float, infinity).
Proof.
  intros Hn.
  assert (HnI : (1 <= n <= INT_MAX)%Z) by (unfold INT_MAX; lia).
  unfold sweep_result, circular_result, annular_result.
  cbn [dmul float_ops]. rewrite !nan_mul_l.
  rewrite !efficiency_nan_distance by exact HnI.
  rewrite rel_er_value_zero by exact Hn.
  destruct (dt =? "circular")%string; reflexivity.
Qed.

Lemma hit_count_no_sample (z source : float) (seed : Z) (ty : string) :
  @hit_count float (float_ops m)
    (@landing_points float (float_ops m) rnd z source 0 seed ty) = 0%Z.
Proof.
  unfold landing_points, source_points. cbn [Z.to_nat].
  destruct (ty =? "uniform")%string; reflexivity.
Qed.

Lemma sweep_result_no_sample (st dt : string) (inp : inputs) (seed : Z)
    (z : float) :
  @sweep_result float (float_ops m) rnd st dt inp 0 seed z = (nan, nan).
Proof.
  unfold sweep_result, circular_result, annular_result, efficiency_percent.
  rewrite !hit_count_no_sample.
  destruct (dt =? "circular")%string; reflexivity.
Qed.

(** X13.  In binary64, for every libm and <random> library: at a NaN
    distance every emission offset is a NaN, no point passes the hit test,
    and an evaluation with one sample or more returns the efficiency 0. *)
Theorem nan_distance_counts_no_hit (source : float) (n seed : Z)
    (ty : string) :
  (1 <= n <= INT_MAX)%Z ->
  (INT_MIN <= seed < INT_MAX)%Z ->
  valid_source ty = true ->
  @count_hits float (float_ops m) rnd nan source n seed ty = Ret 0%Z /\
  @geom_eff_point float (float_ops m) rnd nan source n seed ty = Ret 0%float.
Proof.
  intros Hn Hs Hty. split.
  - rewrite count_hits_spec by (assumption || lia).
    rewrite hit_count_nan_distance. reflexivity.
  - rewrite geom_eff_point_spec by (assumption || lia).
    rewrite efficiency_nan_distance by exact Hn. reflexivity.
Qed.

(** X14.  In binary64, a sweep over one point: whatever [z_min], [z_max],
    the source and the ratio, the single distance is
    [z_min + (z_max - z_min) / 0 * 0], a NaN, and the run reports at it the
    point-source value NaN, the efficiency 0 and the relative error
    +infinity, with the completion column NaN. *)
Theorem single_point_sweep (prog st dt : string) (inp : inputs) :
  valid_source st = true ->
  valid_detector dt = true ->
  (0 <= power inp <= 9)%Z ->
  n_points inp = 1%Z ->
  exists r,
    @main float (float_ops m) rnd [prog; st; dt] inp = Ret r /\
    snd (run_file r) = [(nan, nan, 0%float, infinity)] /\
    run_console r = [(nan, 0%float, infinity)].
Proof.
  intros Hs Hd Hp H1.
  destruct (pow10_int_spec (power inp) Hp) as [_ Hn].
  eexists. split.
  { rewrite main_spec by assumption.
    apply sweep_from_spec; try assumption.
    - rewrite H1. unfold INT_MAX. lia.
    - unfold INT_MIN, INT_MAX. lia. }
  cbn [run_file run_console snd]. rewrite H1, linspace_single.
  cbn [map nth Z.to_nat Z.sub Z.add Z.opp Z.pos_sub].
  unfold sweep_file, sweep_console.
  rewrite sweep_result_nan_distance by exact Hn.
  rewrite point_source_value_nan. split; reflexivity.
Qed.

(** X15.  In binary64, a negative power: the sample count is 0, every
    evaluation is made with no sample, and every row of the run has a NaN
    efficiency and a NaN relative error. *)
Theorem negative_power_table (prog st dt : string) (inp : inputs) :
  valid_source st = true ->
  valid_detector dt = true ->
  (power inp < 0)%Z ->
  (0 <= n_points inp <= INT_MAX)%Z ->
  exists r,
    @main float (float_ops m) rnd [prog; st; dt] inp = Ret r /\
    length (snd (run_file r)) = Z.to_nat (n_points inp) /\
    Forall (fun c => call_n c = 0%Z) (run_calls r) /\
    Forall (fun row : file_row =>
              PrimFloat.is_nan (snd (fst row)) = true /\
              PrimFloat.is_nan (snd row) = true) (snd (run_file r)).
Proof.
  intros Hs Hd Hp Hn.
  eexists. split.
  { rewrite main_spec by assumption.
    apply sweep_from_any_power; try assumption; try lia.
    unfold INT_MIN, INT_MAX. lia. }
  cbn [run_file run_calls snd].
  destruct (Z.ltb_spec (power inp) 0) as [_|]; [|lia].
  rewrite length_map, linspace_values_length.
  split; [reflexivity|]. split.
  - apply Forall_flat_map. apply Forall_forall. intros zi _.
    unfold sweep_calls.
    destruct (dt =? "circular")%string; repeat constructor.
  - apply Forall_map. apply Forall_forall. intros zi _.
    unfold sweep_file. rewrite sweep_result_no_sample. split; reflexivity.
Qed.

End Binary64Sweep.

Lemma nan_distance_counts_no_hit_witness :
  @count_hits float sample_float_ops sample_float_random
    nan 1%float 10 15763027 "gaussian" = Ret 0%Z /\
  @geom_eff_point float sample_float_ops sample_float_random
    nan 1%float 10 15763027 "gaussian" = Ret 0%float.
Proof.
  apply (nan_distance_counts_no_hit sample_libm sample_float_random
           1%float 10 15763027 "gaussian").
  - unfold INT_MAX. lia.
  - unfold INT_MIN, INT_MAX. lia.
  - reflexivity.
Defined.

Lemma single_point_sweep_witness :
  exists r,
    @main float sample_float_ops sample_float_random
      ["Isotropic_emission"; "uniform"; "annular"]%string
      (Inputs 1%float 5%float 1 0.5%float 2 2%float "out.txt") = Ret r /\
    snd (run_file r) = [(nan, nan, 0%float, infinity)] /\
    run_console r = [(nan, 0%float, infinity)].
Proof.
  apply (single_point_sweep sample_libm sample_float_random
           "Isotropic_emission" "uniform" "annular"
           (Inputs 1%float 5%float 1 0.5%float 2 2%float "out.txt")).
  - reflexivity.
  - reflexivity.
  - simpl. lia.
  - reflexivity.
Defined.

Lemma negative_power_table_witness :
  exists r,
    @main float sample_float_ops sample_float_random
      ["Isotropic_emission"; "uniform"; "circular"]%string
      (Inputs 1%float 5%float 3 0.5%float (-1) 2%float "out.txt") = Ret r /\
    length (snd (run_file r)) = 3%nat /\
    Forall (fun c => call_n c = 0%Z) (run_calls r) /\
    Forall (fun row : file_row =>
              PrimFloat.is_nan (snd (fst row)) = true /\
              PrimFloat.is_nan (snd row) = true) (snd (run_file r)).
Proof.
  apply (negative_power_table sample_libm sample_float_random
           "Isotropic_emission" "uniform" "circular"
           (Inputs 1%float 5%float 3 0.5%float (-1) 2%float "out.txt")).
  - reflexivity.
  - reflexivity.
  - simpl. lia.
  - simpl. unfold INT_MAX. lia.
Defined.

(** ** The output file *)

Section FileFacts.

Context {D : Type} {ops : DoubleOps D}.

Lemma nth_error_combine {A B : Type} (a : list A) :
  forall (b : list B) i x y,
    nth_error a i = Some x -> nth_error b i = Some y ->
    nth_error (combine a b) i = Some (x, y).
Proof.
  induction a as [|u a IH]; intros [|v b] [|i] x y Hx Hy; simpl in *;
    try discriminate.
  - congruence.
  - apply IH; assumption.
Qed.

Lemma nth_error_in_range {A : Type} (l : list A) (i : nat) :
  (i < length l)%nat -> exists a, nth_error l i = Some a.
Proof.
  intros H. destruct (nth_error l i) as [a|] eqn:E; [eauto|].
  apply nth_error_None in E. lia.
Qed.

Lemma write_loop_rows (z ps e r : list D) :
  length ps = length z ->
  (length z <= length e)%nat -> (length z <= length r)%nat ->
  for_loop (length z) 0 (write_body z ps e r) [] =
  Ret (combine (combine (combine z ps) e) r).
Proof.
  intros Hps He Hr.
  set (rows := combine (combine (combine z ps) e) r).
  assert (Hrows : length rows = length z).
  { unfold rows. rewrite !length_combine. lia. }
  destruct (for_loop_inv
    (fun j (lines : list file_row) => lines = firstn j rows)
    (write_body z ps e r) (length z) 0 []) as (lines & Hl & Hv).
  - reflexivity.
  - intros j t Hj Ht.
    destruct (nth_error_in_range z j ltac:(lia)) as [zj Ez].
    destruct (nth_error_in_range ps j ltac:(lia)) as [pj Ep].
    destruct (nth_error_in_range e j ltac:(lia)) as [ej Ee].
    destruct (nth_error_in_range r j ltac:(lia)) as [rj Er].
    unfold write_body.
    rewrite (vget_ok z j zj Ez), (vget_ok ps j pj Ep),
      (vget_ok e j ej Ee), (vget_ok r j rj Er). cbn [bind].
    eexists. split; [reflexivity|]. cbv beta.
    assert (Hrow : nth_error rows j = Some (zj, pj, ej, rj)).
    { unfold rows. repeat apply nth_error_combine; assumption. }
    rewrite (firstn_succ_nth rows j _ Hrow), Ht. reflexivity.
  - etransitivity; [exact Hl|]. rewrite Hv. cbn [Nat.add].
    rewrite <- Hrows, firstn_all. reflexivity.
Qed.

Lemma write_loop_short (z ps e r : list D) :
  length ps = length z ->
  (length e < length z \/ length r < length z)%nat ->
  for_loop (length z) 0 (write_body z ps e r) [] = Undefined.
Proof.
  intros Hps Hshort.
  set (j := Nat.min (length e) (length r)).
  apply (for_loop_stuck (fun _ (_ : list file_row) => True)
           (write_body z ps e r) j).
  - exact I.
  - lia.
  - intros k t Hk _.
    destruct (nth_error_in_range z k ltac:(lia)) as [zk Ez].
    destruct (nth_error_in_range ps k ltac:(lia)) as [pk Ep].
    destruct (nth_error_in_range e k ltac:(lia)) as [ek Ee].
    destruct (nth_error_in_range r k ltac:(lia)) as [rk Er].
    unfold write_body.
    rewrite (vget_ok z k zk Ez), (vget_ok ps k pk Ep),
      (vget_ok e k ek Ee), (vget_ok r k rk Er). cbn [bind].
    eexists. split; [reflexivity | exact I].
  - intros t _.
    destruct (nth_error_in_range z j ltac:(lia)) as [zj Ez].
    destruct (nth_error_in_range ps j ltac:(lia)) as [pj Ep].
    unfold write_body.
    rewrite (vget_ok z j zj Ez), (vget_ok ps j pj Ep). cbn [bind].
    destruct (Nat.le_gt_cases (length e) j) as [He|He].
    + rewrite (vget_out e j He). reflexivity.
    + destruct (nth_error_in_range e j He) as [ej Ee].
      rewrite (vget_ok e j ej Ee). cbn [bind].
      rewrite (vget_out r j) by lia. reflexivity.
Qed.

(** X16.  [write_geo_file] on any three vectors: its loop runs over the
    distances; with efficiencies and uncertainties at least as many, the
    file gets one row per distance, in order, made of the distance, its
    point-source value and the entries of the two vectors at the same index
    (entries beyond are ignored); with fewer of either, the loop reads out
    of range. *)
Theorem write_geo_file_rows (z e r : list D) :
  (Z.of_nat (length z) <= INT_MAX)%Z ->
  ((length z <= length e)%nat -> (length z <= length r)%nat ->
   write_geo_file z e r =
   Ret (combine (combine (combine z (map point_source_value z)) e) r)) /\
  ((length e < length z \/ length r < length z)%nat ->
   write_geo_file z e r = Undefined).
Proof.
  intros Hz. unfold write_geo_file.
  rewrite point_source_spec by exact Hz. cbn [bind].
  split.
  - intros He Hr. apply write_loop_rows; [apply length_map | exact He | exact Hr].
  - intros Hshort. apply write_loop_short; [apply length_map | exact Hshort].
Qed.

End FileFacts.

Lemma write_geo_file_rows_witness :
  @write_geo_file float sample_float_ops [0%float; 1%float]
    [50%float; 10%float; 7%float] [1%float; 2%float] =
  Ret [(0%float, 50%float, 50%float, 1%float);
       (1%float, @point_source_value float sample_float_ops 1%float,
        10%float, 2%float)] /\
  @write_geo_file float sample_float_ops [0%float; 1%float]
    [50%float] [1%float; 2%float] = Undefined.
Proof.
  destruct (@write_geo_file_rows float sample_float_ops [0%float; 1%float]
              [50%float; 10%float; 7%float] [1%float; 2%float])
    as [H1 _]; [simpl; unfold INT_MAX; lia|].
  destruct (@write_geo_file_rows float sample_float_ops [0%float; 1%float]
              [50%float] [1%float; 2%float])
    as [_ H2]; [simpl; unfold INT_MAX; lia|].
  split.
  - rewrite H1 by (simpl; lia). reflexivity.
  - apply H2. left. simpl. lia.
Defined.

